(** * mount-exporter: the resilient probe layer

    A shallow embedding of the Go packages [reliability] (circuit breaker,
    retry driver and the test for transient errors), [system] (the findmnt
    wrapper), [metrics] (the collector) and [config] (the configuration and
    its validation), followed by the properties of the specification that
    were checked against them and by further properties of the code.

    Conventions of the embedding.
    - A Go [int] or [int64] is a [Z]; an increment is written with its
      two's-complement wrap-around ([wrap64]).
    - A [time.Time] is a [Z], the nanoseconds on one time line whose origin is
      the zero [time.Time{}]; a [time.Duration] is a [Z] of nanoseconds and
      [Time.Sub] saturates as in the Go library.
    - A Go [string] is a [string] of bytes.
    - Everything outside the process (the clock, the timers and contexts a
      retry waits on, the findmnt command) is a world [W]; code that touches it
      is a function [W -> A * W].  A variable captured and assigned by a
      closure lives in a frame paired with the world.
    - Locks and goroutines are not modelled: every call runs to completion
      before the next one starts. *)

From Stdlib Require Import ZArith List String Ascii Bool Lia DecimalString.
Import ListNotations.
Open Scope string_scope.
Open Scope Z_scope.

(** ** Go runtime values *)

Module Go.

Definition minInt64 : Z := - 2 ^ 63.
Definition maxInt64 : Z := 2 ^ 63 - 1.

(** Two's-complement wrap-around of a 64-bit signed integer. *)
Definition wrap64 (z : Z) : Z := (z + 2 ^ 63) mod 2 ^ 64 - 2 ^ 63.

Definition Time := Z.
Definition Duration := Z.

Definition Nanosecond : Duration := 1.
Definition Millisecond : Duration := 1000000.
Definition Second : Duration := 1000000000.

(** [time.Time{}] *)
Definition zeroTime : Time := 0.

(** [t.Sub(u)]: the difference, saturated to the range of a Duration. *)
Definition Time_Sub (t u : Time) : Duration :=
  Z.max minInt64 (Z.min maxInt64 (t - u)).

(** [strconv.Itoa] *)
Definition Itoa (z : Z) : string := NilZero.string_of_int (Z.to_int z).

(** The rendering of a [time.Duration] by the [%v] verb
    ([Duration.String] of the Go library), left to the instance. *)
Class DurationFormat := Duration_String : Duration -> string.

(** Go's [error] values, as far as this program builds and inspects them. *)
#[warnings="-register-all"]
Inductive error : Type :=
| errorString (s : string)
    (* errors.New(s), fmt.Errorf without a %w verb *)
| wrapError (prefix : string) (err : option error)
    (* fmt.Errorf(prefix + "%w", err) *)
| timedOutError (prefix : string) (d : Duration)
    (* fmt.Errorf(prefix + "%v", d) *)
| ExitError (code : Z) (text : string)
    (* *exec.ExitError with its exit code and its ProcessState text *)
| Canceled
    (* context.Canceled *)
| DeadlineExceeded.
    (* context.DeadlineExceeded *)

(** [err.Error()] *)
Fixpoint Error `{DurationFormat} (e : error) : string :=
  match e with
  | errorString s => s
  | wrapError prefix err =>
      prefix ++ match err with
                | Some e' => Error e'
                | None => "%!w(<nil>)"
                end
  | timedOutError prefix d => prefix ++ Duration_String d
  | ExitError _ text => text
  | Canceled => "context canceled"
  | DeadlineExceeded => "context deadline exceeded"
  end.

Definition isNil (err : option error) : bool :=
  match err with None => true | Some _ => false end.

(** [context.Context]: [Background] is never done, anything derived with a
    cancel function or a deadline may be. *)
Inductive Context := Background | WithCancel.

End Go.
Import Go.

(** ** The world *)

(** Code with effects on the world. *)
Definition M (W A : Type) : Type := W -> A * W.

Definition ret {W A} (a : A) : M W A := fun w => (a, w).

Definition bind {W A B} (m : M W A) (k : A -> M W B) : M W B :=
  fun w => let (a, w') := m w in k a w'.

Notation "x <- m ;; k" := (bind m (fun x => k))
  (at level 61, m at next level, right associativity).

(** [time.Now()] *)
Class Clock (W : Type) := now : W -> Time.

(** The [select] of the retry loop on [time.After(delay)] and [ctx.Done()],
    for a context that can be done: [Some cause] when the context wins, with
    [cause = ctx.Err()], and [None] when the timer fires.  The argument is the
    attempt the delay is computed for. *)
Class Waiter (W : Type) := selectAfterOrDone : Z -> M W (option error).

(** What one run of the findmnt command shows to the program:
    the two results of [cmd.Output()] and [cmdCtx.Err()] read afterwards. *)
Record CmdOutcome := {
  output : string;
  cmdErr : option error;
  ctxErr : option error
}.

(** [exec.CommandContext(cmdCtx, "findmnt", "-n", "-o",
    "TARGET,FSTYPE,OPTIONS,SOURCE", "--mountpoint", mountPoint).Output()]
    under a context derived from [ctx] with the given timeout. *)
Class Findmnt (W : Type) :=
  runFindmnt : Context -> Duration -> string -> M W CmdOutcome.

(** The variables a closure captures sit next to the world. *)
#[export] Instance Clock_frame {W S} `{Clock W} : Clock (W * S) :=
  fun p => now (fst p).

#[export] Instance Waiter_frame {W S} `{Waiter W} : Waiter (W * S) :=
  fun attempt p =>
    let (c, w') := selectAfterOrDone attempt (fst p) in (c, (w', snd p)).

(** [time.Since(t)] *)
Definition time_Since {W} `{Clock W} (t : Time) (w : W) : Duration :=
  Time_Sub (now w) t.

(** ** Runes: the conversions between a string and its code points *)

Module utf8.

Definition RuneError : N := 0xFFFD.

Definition bytes (s : string) : list N :=
  map N_of_ascii (list_ascii_of_string s).

Definition ofBytes (l : list N) : string :=
  string_of_list_ascii (map ascii_of_N l).

(** A continuation byte. *)
Definition cont (b : N) : bool := ((0x80 <=? b) && (b <=? 0xBF))%N.

(** The range the second byte of an encoding must lie in, by its first
    byte (the accept ranges of the Go library). *)
Definition secondLow (b0 : N) : N :=
  (if b0 =? 0xE0 then 0xA0 else if b0 =? 0xF0 then 0x90 else 0x80)%N.

Definition secondHigh (b0 : N) : N :=
  (if b0 =? 0xED then 0x9F else if b0 =? 0xF4 then 0x8F else 0xBF)%N.

(** [utf8.DecodeRuneInString]: the first rune of the bytes and its width;
    a byte that starts no valid encoding is [RuneError] of width 1. *)
Definition DecodeRune (l : list N) : N * nat :=
  match l with
  | [] => (RuneError, 0%nat)
  | b0 :: t0 =>
      (if b0 <? 0x80 then (b0, 1%nat)
       else if (0xC2 <=? b0) && (b0 <=? 0xDF) then
         match t0 with
         | b1 :: _ =>
             if cont b1
             then (N.lor (N.shiftl (N.land b0 0x1F) 6) (N.land b1 0x3F), 2%nat)
             else (RuneError, 1%nat)
         | _ => (RuneError, 1%nat)
         end
       else if (0xE0 <=? b0) && (b0 <=? 0xEF) then
         match t0 with
         | b1 :: b2 :: _ =>
             if (secondLow b0 <=? b1) && (b1 <=? secondHigh b0) && cont b2
             then (N.lor (N.shiftl (N.land b0 0x0F) 12)
                     (N.lor (N.shiftl (N.land b1 0x3F) 6) (N.land b2 0x3F)),
                   3%nat)
             else (RuneError, 1%nat)
         | _ => (RuneError, 1%nat)
         end
       else if (0xF0 <=? b0) && (b0 <=? 0xF4) then
         match t0 with
         | b1 :: b2 :: b3 :: _ =>
             if (secondLow b0 <=? b1) && (b1 <=? secondHigh b0)
                && cont b2 && cont b3
             then (N.lor (N.shiftl (N.land b0 0x07) 18)
                     (N.lor (N.shiftl (N.land b1 0x3F) 12)
                        (N.lor (N.shiftl (N.land b2 0x3F) 6)
                           (N.land b3 0x3F))),
                   4%nat)
             else (RuneError, 1%nat)
         | _ => (RuneError, 1%nat)
         end
       else (RuneError, 1%nat))%N
  end.

(** The runes of at most [n] decoding steps. *)
Fixpoint decode (n : nat) (l : list N) : list N :=
  match n with
  | O => []
  | S n' =>
      match l with
      | [] => []
      | _ => let (r, width) := DecodeRune l in r :: decode n' (skipn width l)
      end
  end.

(** [[]rune(s)] *)
Definition runes (s : string) : list N :=
  decode (List.length (bytes s)) (bytes s).

(** [utf8.AppendRune] for one rune. *)
Definition EncodeRune (r : N) : list N :=
  (if r <? 0x80 then [r]
   else if r <? 0x800 then
     [N.lor 0xC0 (N.shiftr r 6); N.lor 0x80 (N.land r 0x3F)]
   else if (0xD800 <=? r) && (r <=? 0xDFFF) || (0x10FFFF <? r) then
     [0xEF; 0xBF; 0xBD]
   else if r <? 0x10000 then
     [N.lor 0xE0 (N.shiftr r 12);
      N.lor 0x80 (N.land (N.shiftr r 6) 0x3F);
      N.lor 0x80 (N.land r 0x3F)]
   else
     [N.lor 0xF0 (N.shiftr r 18);
      N.lor 0x80 (N.land (N.shiftr r 12) 0x3F);
      N.lor 0x80 (N.land (N.shiftr r 6) 0x3F);
      N.lor 0x80 (N.land r 0x3F)])%N.

(** [string(runes)] *)
Definition ofRunes (rs : list N) : string :=
  ofBytes (flat_map EncodeRune rs).

End utf8.

(** ** package reliability: circuit_breaker.go *)

Module reliability.

Inductive State := StateClosed | StateHalfOpen | StateOpen.

Definition State_eqb (a b : State) : bool :=
  match a, b with
  | StateClosed, StateClosed => true
  | StateHalfOpen, StateHalfOpen => true
  | StateOpen, StateOpen => true
  | _, _ => false
  end.

(** The struct without its mutex.  [onStateChange] tells whether a callback
    is installed; [notified] lists the callbacks spawned so far, oldest
    first, as (name, from, to). *)
Record CircuitBreaker := {
  name : string;
  maxFailures : Z;
  resetTimeout : Duration;
  state : State;
  failures : Z;
  lastFailTime : Time;
  onStateChange : bool;
  notified : list (string * State * State)
}.

Record CircuitBreakerConfig := {
  Name : string;
  MaxFailures : Z;
  ResetTimeout : Duration;
  OnStateChange : bool
}.

Definition NewCircuitBreaker (config : CircuitBreakerConfig) : CircuitBreaker :=
  let maxF := if MaxFailures config <=? 0 then 5 else MaxFailures config in
  let resetT := if ResetTimeout config <=? 0 then 60 * Second
                else ResetTimeout config in
  {| name := Name config;
     maxFailures := maxF;
     resetTimeout := resetT;
     state := StateClosed;
     failures := 0;
     lastFailTime := zeroTime;
     onStateChange := OnStateChange config;
     notified := [] |}.

Definition set_failures (n : Z) (cb : CircuitBreaker) : CircuitBreaker :=
  {| name := name cb; maxFailures := maxFailures cb;
     resetTimeout := resetTimeout cb; state := state cb;
     failures := n; lastFailTime := lastFailTime cb;
     onStateChange := onStateChange cb; notified := notified cb |}.

Definition set_lastFailTime (t : Time) (cb : CircuitBreaker) : CircuitBreaker :=
  {| name := name cb; maxFailures := maxFailures cb;
     resetTimeout := resetTimeout cb; state := state cb;
     failures := failures cb; lastFailTime := t;
     onStateChange := onStateChange cb; notified := notified cb |}.

(** [setState]: assigns the state when it differs and spawns the callback. *)
Definition setState (newState : State) (cb : CircuitBreaker) : CircuitBreaker :=
  if State_eqb (state cb) newState then cb
  else
    {| name := name cb; maxFailures := maxFailures cb;
       resetTimeout := resetTimeout cb; state := newState;
       failures := failures cb; lastFailTime := lastFailTime cb;
       onStateChange := onStateChange cb;
       notified := if onStateChange cb
                   then notified cb ++ [(name cb, state cb, newState)]
                   else notified cb |}.

Definition errCircuitOpen : error := errorString "circuit breaker is open".

Section Breaker.
Context {W : Type} `{Clock W}.

Definition allowRequest (cb : CircuitBreaker) (w : W) : bool :=
  match state cb with
  | StateClosed => true
  | StateOpen => resetTimeout cb <=? time_Since (lastFailTime cb) w
  | StateHalfOpen => true
  end.

Definition onSuccess (cb : CircuitBreaker) (w : W) : CircuitBreaker :=
  let cb := set_failures 0 cb in
  match state cb with
  | StateClosed => cb
  | StateOpen =>
      if resetTimeout cb <=? time_Since (lastFailTime cb) w
      then setState StateHalfOpen cb
      else cb
  | StateHalfOpen => setState StateClosed cb
  end.

Definition onFailure (cb : CircuitBreaker) (w : W) : CircuitBreaker :=
  let cb := set_failures (wrap64 (failures cb + 1)) cb in
  let cb := set_lastFailTime (now w) cb in
  match state cb with
  | StateClosed =>
      if maxFailures cb <=? failures cb then setState StateOpen cb else cb
  | StateHalfOpen => setState StateOpen cb
  | StateOpen => cb
  end.

Definition recordResult (cb : CircuitBreaker) (success : bool) (w : W)
  : CircuitBreaker :=
  if success then onSuccess cb w else onFailure cb w.

(** [Execute]: the error returned, with the breaker as the call leaves it. *)
Definition Execute (cb : CircuitBreaker) (fn : M W (option error))
  : M W (option error * CircuitBreaker) :=
  fun w =>
    if negb (allowRequest cb w) then ((Some errCircuitOpen, cb), w)
    else
      let (err, w') := fn w in
      ((err, recordResult cb (isNil err) w'), w').

End Breaker.

Definition Failures (cb : CircuitBreaker) : Z := failures cb.

Definition Reset (cb : CircuitBreaker) : CircuitBreaker :=
  let cb := set_failures 0 cb in
  let cb := set_lastFailTime zeroTime cb in
  setState StateClosed cb.

Definition IsOpen (cb : CircuitBreaker) : bool := State_eqb (state cb) StateOpen.
Definition IsHalfOpen (cb : CircuitBreaker) : bool :=
  State_eqb (state cb) StateHalfOpen.
Definition IsClosed (cb : CircuitBreaker) : bool :=
  State_eqb (state cb) StateClosed.

Definition State_String (s : State) : string :=
  match s with
  | StateClosed => "CLOSED"
  | StateHalfOpen => "HALF_OPEN"
  | StateOpen => "OPEN"
  end.

(** *** retry.go *)

Inductive BackoffStrategy :=
| BackoffStrategyLinear
| BackoffStrategyExponential
| BackoffStrategyFixed.

(** The configuration of a retry.  [Multiplier] (a float64) and
    [RetryableErrors] are read by [calculateDelay] and by the option
    [WithRetryableErrors] only, and are left out. *)
Record RetryConfig := {
  MaxAttempts : Z;
  InitialDelay : Duration;
  MaxDelay : Duration;
  Strategy : BackoffStrategy;
  ShouldRetry : error -> bool
}.

Record Retry := { config : RetryConfig }.

Definition RetryOption := RetryConfig -> RetryConfig.

Definition WithMaxAttempts (attempts : Z) : RetryOption :=
  fun c => {| MaxAttempts := attempts; InitialDelay := InitialDelay c;
              MaxDelay := MaxDelay c; Strategy := Strategy c;
              ShouldRetry := ShouldRetry c |}.

Definition WithInitialDelay (delay : Duration) : RetryOption :=
  fun c => {| MaxAttempts := MaxAttempts c; InitialDelay := delay;
              MaxDelay := MaxDelay c; Strategy := Strategy c;
              ShouldRetry := ShouldRetry c |}.

Definition WithMaxDelay (delay : Duration) : RetryOption :=
  fun c => {| MaxAttempts := MaxAttempts c; InitialDelay := InitialDelay c;
              MaxDelay := delay; Strategy := Strategy c;
              ShouldRetry := ShouldRetry c |}.

Definition WithBackoffStrategy (strategy : BackoffStrategy) : RetryOption :=
  fun c => {| MaxAttempts := MaxAttempts c; InitialDelay := InitialDelay c;
              MaxDelay := MaxDelay c; Strategy := strategy;
              ShouldRetry := ShouldRetry c |}.

Definition WithShouldRetry (shouldRetry : error -> bool) : RetryOption :=
  fun c => {| MaxAttempts := MaxAttempts c; InitialDelay := InitialDelay c;
              MaxDelay := MaxDelay c; Strategy := Strategy c;
              ShouldRetry := shouldRetry |}.

Definition NewRetry (opts : list RetryOption) : Retry :=
  {| config :=
       fold_left (fun c opt => opt c) opts
         {| MaxAttempts := 3;
            InitialDelay := 100 * Millisecond;
            MaxDelay := 30 * Second;
            Strategy := BackoffStrategyExponential;
            ShouldRetry := fun _ => true |} |}.

Definition errRetryCancelled (cause : error) : error :=
  wrapError "retry cancelled: " (Some cause).

Definition errMaxAttempts (r : Retry) (lastErr : option error) : error :=
  wrapError ("max retry attempts (" ++ Itoa (MaxAttempts (config r))
             ++ ") exceeded, last error: ") lastErr.

Section Driver.
Context {W : Type} `{Waiter W}.

(** The wait before attempt [attempt > 0].  The delay,
    [calculateDelay(attempt)] plus a random jitter, is float64 arithmetic
    and only sets how long the timer runs, which is the world's business;
    the [Done] channel of [Background] is nil, so there only the timer
    can be received from. *)
Definition backoffWait (ctx : Context) (attempt : Z) : M W (option error) :=
  c <- selectAfterOrDone attempt ;;
  ret match ctx with
      | Background => None
      | WithCancel => c
      end.

(** The [for] loop of [Do], entered with [n] iterations left before the
    condition [attempt < MaxAttempts] fails. *)
Fixpoint DoLoop (r : Retry) (ctx : Context) (fn : M W (option error))
  (n : nat) (attempt : Z) (lastErr : option error) : M W (option error) :=
  match n with
  | O => ret (Some (errMaxAttempts r lastErr))
  | S n' =>
      c <- (if 0 <? attempt then backoffWait ctx attempt else ret None) ;;
      match c with
      | Some cause => ret (Some (errRetryCancelled cause))
      | None =>
          err <- fn ;;
          match err with
          | None => ret None
          | Some e =>
              if negb (ShouldRetry (config r) e)
              then ret (Some (errMaxAttempts r (Some e)))
              else if attempt =? MaxAttempts (config r) - 1
              then ret (Some (errMaxAttempts r (Some e)))
              else DoLoop r ctx fn n' (attempt + 1) (Some e)
          end
      end
  end.

Definition Do (r : Retry) (ctx : Context) (fn : M W (option error))
  : M W (option error) :=
  DoLoop r ctx fn (Z.to_nat (MaxAttempts (config r))) 0 None.

End Driver.

Section DriverWithValue.
Context {W : Type} `{Waiter W} {T : Type}.

(** The [for] loop of [DoWithValue]: the loop of [Do] again, with the
    variable [result] that holds the value of the last failed attempt. *)
Fixpoint DoWithValueLoop (r : Retry) (ctx : Context)
  (fn : M W (T * option error)) (n : nat) (attempt : Z) (result : T)
  (lastErr : option error) : M W (T * option error) :=
  match n with
  | O => ret (result, Some (errMaxAttempts r lastErr))
  | S n' =>
      c <- (if 0 <? attempt then backoffWait ctx attempt else ret None) ;;
      match c with
      | Some cause => ret (result, Some (errRetryCancelled cause))
      | None =>
          res <- fn ;;
          match snd res with
          | None => ret (fst res, None)
          | Some e =>
              if negb (ShouldRetry (config r) e)
              then ret (fst res, Some (errMaxAttempts r (Some e)))
              else if attempt =? MaxAttempts (config r) - 1
              then ret (fst res, Some (errMaxAttempts r (Some e)))
              else DoWithValueLoop r ctx fn n' (attempt + 1) (fst res) (Some e)
          end
      end
  end.

(** [DoWithValue], a method with a type parameter of its own, read as the
    generic function it is written as; [zero] is the zero value of [T],
    what [var result T] starts as. *)
Definition DoWithValue (r : Retry) (ctx : Context)
  (fn : M W (T * option error)) (zero : T) : M W (T * option error) :=
  DoWithValueLoop r ctx fn (Z.to_nat (MaxAttempts (config r))) 0 zero None.

End DriverWithValue.

Definition GetConfig (r : Retry) : RetryConfig := config r.

Definition IsRetryableError (r : Retry) (err : error) : bool :=
  ShouldRetry (config r) err.

(** [toLower]: the runes of the string, those from A to Z moved to a to
    z, made a string again. *)
Definition toLower (s : string) : string :=
  utf8.ofRunes
    (map (fun r => if ((65 <=? r) && (r <=? 90))%N then (r + 32)%N else r)
       (utf8.runes s)).

(** [contains].  The loop over the lowered strings starts at index 1. *)
Definition contains (s substr : string) : bool :=
  (String.length substr <=? String.length s)%nat
  && (String.eqb s substr
      || (String.length substr =? 0)%nat
      || (String.length substr <? String.length s)%nat
         && (String.eqb (substring 0 (String.length substr) s) substr
             || String.eqb
                  (substring (String.length s - String.length substr)
                     (String.length substr) s) substr
             || let sLower := toLower s in
                let substrLower := toLower substr in
                existsb
                  (fun i => String.eqb
                              (substring i (String.length substrLower) sLower)
                              substrLower)
                  (seq 1 (String.length sLower - String.length substrLower)))).

Definition transientPatterns : list string :=
  [ "timeout";
    "connection refused";
    "temporary failure";
    "rate limited";
    "service unavailable";
    "network is unreachable";
    "no route to host";
    "connection reset";
    "connection timed out";
    "deadline exceeded";
    "resource temporarily unavailable" ].

Definition IsTransientError `{DurationFormat} (err : option error) : bool :=
  match err with
  | None => false
  | Some e => existsb (contains (Error e)) transientPatterns
  end.

End reliability.

(** ** The Go library functions the wrapper parses with *)

Module strings.

Definition byte (c : ascii) : N := N_of_ascii c.

(** The white space of [unicode.IsSpace] below U+0080:
    tab, line feed, vertical tab, form feed, carriage return, space. *)
Definition asciiSpace (c : ascii) : bool :=
  ((9 <=? byte c) && (byte c <=? 13) || (byte c =? 32))%N.

(** The two-byte UTF-8 encodings of white space: U+0085 and U+00A0. *)
Definition spaceRune2 (b0 b1 : ascii) : bool :=
  ((byte b0 =? 0xC2) && ((byte b1 =? 0x85) || (byte b1 =? 0xA0)))%N.

(** The three-byte ones: U+1680, U+2000 to U+200A, U+2028, U+2029, U+202F,
    U+205F and U+3000. *)
Definition spaceRune3 (b0 b1 b2 : ascii) : bool :=
  ((byte b0 =? 0xE1) && (byte b1 =? 0x9A) && (byte b2 =? 0x80)
   || (byte b0 =? 0xE2) && (byte b1 =? 0x80)
      && ((0x80 <=? byte b2) && (byte b2 <=? 0x8A)
          || (byte b2 =? 0xA8) || (byte b2 =? 0xA9) || (byte b2 =? 0xAF))
   || (byte b0 =? 0xE2) && (byte b1 =? 0x81) && (byte b2 =? 0x9F)
   || (byte b0 =? 0xE3) && (byte b1 =? 0x80) && (byte b2 =? 0x80))%N.

(** The bytes left once a white-space rune is taken off the front. *)
Definition leadingSpace (s : list ascii) : option (list ascii) :=
  match s with
  | [] => None
  | b0 :: t0 =>
      if asciiSpace b0 then Some t0
      else match t0 with
           | [] => None
           | b1 :: t1 =>
               if spaceRune2 b0 b1 then Some t1
               else match t1 with
                    | [] => None
                    | b2 :: t2 => if spaceRune3 b0 b1 b2 then Some t2 else None
                    end
           end
  end.

(** The same at the end of a string, read backwards. *)
Definition trailingSpace (r : list ascii) : option (list ascii) :=
  match r with
  | [] => None
  | b2 :: t0 =>
      if asciiSpace b2 then Some t0
      else match t0 with
           | [] => None
           | b1 :: t1 =>
               if spaceRune2 b1 b2 then Some t1
               else match t1 with
                    | [] => None
                    | b0 :: t2 => if spaceRune3 b0 b1 b2 then Some t2 else None
                    end
           end
  end.

Fixpoint dropWhile (next : list ascii -> option (list ascii)) (n : nat)
  (s : list ascii) : list ascii :=
  match n with
  | O => s
  | S n' => match next s with
            | Some t => dropWhile next n' t
            | None => s
            end
  end.

(** [strings.TrimSpace]: all leading and trailing white space removed, as
    defined by Unicode; a byte that starts no valid encoding is no space. *)
Definition TrimSpace (s : string) : string :=
  let l := list_ascii_of_string s in
  let l := dropWhile leadingSpace (List.length l) l in
  let r := dropWhile trailingSpace (List.length l) (rev l) in
  string_of_list_ascii (rev r).

(** [strings.Split(s, sep)] for a separator of one byte. *)
Fixpoint Split (s : string) (sep : ascii) : list string :=
  match s with
  | EmptyString => [EmptyString]
  | String c t =>
      if Ascii.eqb c sep then EmptyString :: Split t sep
      else match Split t sep with
           | h :: r => String c h :: r
           | [] => [String c EmptyString]
           end
  end.

(** [strings.Join(elems, sep)] *)
Definition Join (elems : list string) (sep : string) : string :=
  String.concat sep elems.

End strings.

Module bufio.

Definition MaxScanTokenSize : Z := 64 * 1024.

Definition ErrTooLong : error := errorString "bufio.Scanner: token too long".

(** The bytes before the first line feed. *)
Fixpoint firstLine (s : string) : string :=
  match s with
  | EmptyString => EmptyString
  | String c t =>
      if Ascii.eqb c "010"%char then EmptyString else String c (firstLine t)
  end.

Fixpoint dropCR (s : string) : string :=
  match s with
  | EmptyString => EmptyString
  | String c EmptyString => if Ascii.eqb c "013"%char then EmptyString else s
  | String c t => String c (dropCR t)
  end.

(** A [bufio.Scanner] with the default split function [ScanLines] and the
    default buffer, after its first call to [Scan] on
    [strings.NewReader(s)]: what [Scan] returned, and what [Text] and [Err]
    return then.  A line that does not fit the buffer ends the scan with
    [ErrTooLong]. *)
Record Scanner := { Scan : bool; Text : string; Err : option error }.

Definition NewScanner (s : string) : Scanner :=
  match s with
  | EmptyString => {| Scan := false; Text := ""; Err := None |}
  | _ =>
      let line := firstLine s in
      if MaxScanTokenSize <=? Z.of_nat (String.length line)
      then {| Scan := false; Text := ""; Err := Some ErrTooLong |}
      else {| Scan := true; Text := dropCR line; Err := None |}
  end.

End bufio.

(** ** package system: findmnt.go *)

Module system.
Import reliability.

Inductive MountStatus :=
| MountStatusUnknown
| MountStatusMounted
| MountStatusNotMounted.

Definition MountStatus_String (ms : MountStatus) : string :=
  match ms with
  | MountStatusMounted => "mounted"
  | MountStatusNotMounted => "not_mounted"
  | MountStatusUnknown => "unknown"
  end.

Record FindmntResult := {
  MountPoint : string;
  Status : MountStatus;
  Target : string;
  FSType : string;
  Options : string;
  Source : string;
  Error_ : option error
}.

Definition set_Status (v : MountStatus) (r : FindmntResult) : FindmntResult :=
  {| MountPoint := MountPoint r; Status := v; Target := Target r;
     FSType := FSType r; Options := Options r; Source := Source r;
     Error_ := Error_ r |}.

Definition set_Target (v : string) (r : FindmntResult) : FindmntResult :=
  {| MountPoint := MountPoint r; Status := Status r; Target := v;
     FSType := FSType r; Options := Options r; Source := Source r;
     Error_ := Error_ r |}.

Definition set_FSType (v : string) (r : FindmntResult) : FindmntResult :=
  {| MountPoint := MountPoint r; Status := Status r; Target := Target r;
     FSType := v; Options := Options r; Source := Source r;
     Error_ := Error_ r |}.

Definition set_Options (v : string) (r : FindmntResult) : FindmntResult :=
  {| MountPoint := MountPoint r; Status := Status r; Target := Target r;
     FSType := FSType r; Options := v; Source := Source r;
     Error_ := Error_ r |}.

Definition set_Source (v : string) (r : FindmntResult) : FindmntResult :=
  {| MountPoint := MountPoint r; Status := Status r; Target := Target r;
     FSType := FSType r; Options := Options r; Source := v;
     Error_ := Error_ r |}.

Definition set_Error (v : option error) (r : FindmntResult) : FindmntResult :=
  {| MountPoint := MountPoint r; Status := Status r; Target := Target r;
     FSType := FSType r; Options := Options r; Source := Source r;
     Error_ := v |}.

(** The counters of the wrapper, each an int64. *)
Record Stats := {
  totalCalls : Z;
  successfulCalls : Z;
  failedCalls : Z;
  circuitBreakerTrips : Z;
  retryAttempts : Z
}.

Definition incr_totalCalls (s : Stats) : Stats :=
  {| totalCalls := wrap64 (totalCalls s + 1);
     successfulCalls := successfulCalls s; failedCalls := failedCalls s;
     circuitBreakerTrips := circuitBreakerTrips s;
     retryAttempts := retryAttempts s |}.

Definition incr_successfulCalls (s : Stats) : Stats :=
  {| totalCalls := totalCalls s;
     successfulCalls := wrap64 (successfulCalls s + 1);
     failedCalls := failedCalls s;
     circuitBreakerTrips := circuitBreakerTrips s;
     retryAttempts := retryAttempts s |}.

Definition incr_failedCalls (s : Stats) : Stats :=
  {| totalCalls := totalCalls s; successfulCalls := successfulCalls s;
     failedCalls := wrap64 (failedCalls s + 1);
     circuitBreakerTrips := circuitBreakerTrips s;
     retryAttempts := retryAttempts s |}.

Definition incr_retryAttempts (s : Stats) : Stats :=
  {| totalCalls := totalCalls s; successfulCalls := successfulCalls s;
     failedCalls := failedCalls s;
     circuitBreakerTrips := circuitBreakerTrips s;
     retryAttempts := wrap64 (retryAttempts s + 1) |}.

Record FindmntWrapper := {
  timeout : Duration;
  circuitBreaker : CircuitBreaker;
  retry : Retry;
  stats : Stats
}.

Definition with_stats (s : Stats) (f : FindmntWrapper) : FindmntWrapper :=
  {| timeout := timeout f; circuitBreaker := circuitBreaker f;
     retry := retry f; stats := s |}.

Definition with_circuitBreaker (cb : CircuitBreaker) (f : FindmntWrapper)
  : FindmntWrapper :=
  {| timeout := timeout f; circuitBreaker := cb;
     retry := retry f; stats := stats f |}.

(** [NewFindmntWrapper].  The predicate it installs,
    [reliability.IsTransientError], is a substring test on the text of the
    error; it is an argument here. *)
Definition NewFindmntWrapper (IsTransientError : error -> bool)
  (timeout : Duration) : FindmntWrapper :=
  let cb := NewCircuitBreaker
              {| Name := "findmnt-circuit-breaker";
                 MaxFailures := 5;
                 ResetTimeout := 60 * Second;
                 OnStateChange := true |} in
  let retry := NewRetry
                 [ WithMaxAttempts 3;
                   WithInitialDelay (100 * Millisecond);
                   WithMaxDelay (5 * Second);
                   WithBackoffStrategy BackoffStrategyExponential;
                   WithShouldRetry IsTransientError ] in
  {| timeout := timeout;
     circuitBreaker := cb;
     retry := retry;
     stats := {| totalCalls := 0; successfulCalls := 0; failedCalls := 0;
                 circuitBreakerTrips := 0; retryAttempts := 0 |} |}.

Definition errDisabled : error :=
  errorString
    "circuit breaker is open - findmnt commands are temporarily disabled".

(** What the closures of [CheckMountPoint] and [executeFindmnt] capture and
    assign: the counters of the wrapper and the result under construction. *)
Record Frame := { frStats : Stats; frResult : FindmntResult }.

(** The fields of the first line of the output, assigned to the result. *)
Definition assignFields (fields : list string) (result : FindmntResult)
  : FindmntResult :=
  if (1 <=? List.length fields)%nat then
    let result := set_Status MountStatusMounted result in
    let result := set_Target (nth 0 fields "") result in
    let result := if (2 <=? List.length fields)%nat
                  then set_FSType (nth 1 fields "") result else result in
    let result := if (3 <=? List.length fields)%nat
                  then set_Options (nth 2 fields "") result else result in
    if (4 <=? List.length fields)%nat
    then set_Source (strings.Join (skipn 3 fields) " ") result else result
  else result.

(** The parsing of the output of a command that exited with status zero. *)
Definition parseOutput (outputStr : string) (result : FindmntResult)
  : option error * FindmntResult :=
  if (String.length (strings.TrimSpace outputStr) =? 0)%nat
  then (None, set_Status MountStatusNotMounted result)
  else
    let scanner := bufio.NewScanner outputStr in
    let result :=
      if bufio.Scan scanner then
        let line := strings.TrimSpace (bufio.Text scanner) in
        if negb (String.eqb line "")
        then assignFields (strings.Split line " "%char) result
        else result
      else result in
    match bufio.Err scanner with
    | Some err =>
        (Some (wrapError "failed to parse findmnt output: " (Some err)), result)
    | None => (None, result)
    end.

Section Wrapper.
Context {W : Type} `{Clock W} `{Waiter W} `{Findmnt W} `{DurationFormat}.

(** The function [executeFindmnt] hands to [retry.Do]: one run of the
    command. *)
Definition findmntOnce (f : FindmntWrapper) (ctx : Context)
  (mountPoint : string) : M (W * Frame) (option error) :=
  fun '(w, fr) =>
    let st := incr_retryAttempts (frStats fr) in
    let result := frResult fr in
    let (o, w) := runFindmnt ctx (timeout f) mountPoint w in
    match cmdErr o with
    | Some err =>
        match ctxErr o, err with
        | Some DeadlineExceeded, _ =>
            (Some (timedOutError "findmnt command timed out after "
                     (timeout f)),
             (w, {| frStats := st; frResult := result |}))
        | _, ExitError 1 _ =>
            (None,
             (w, {| frStats := st;
                    frResult := set_Status MountStatusNotMounted result |}))
        | _, _ =>
            (Some (wrapError "findmnt command failed: " (Some err)),
             (w, {| frStats := st; frResult := result |}))
        end
    | None =>
        let (e, result) := parseOutput (output o) result in
        (e, (w, {| frStats := st; frResult := result |}))
    end.

Definition executeFindmnt (f : FindmntWrapper) (ctx : Context)
  (mountPoint : string) : M (W * Frame) (option error) :=
  Do (retry f) ctx (findmntOnce f ctx mountPoint).

(** [CheckMountPoint]: the result, with the wrapper as the call leaves
    it. *)
Definition CheckMountPoint (f : FindmntWrapper) (ctx : Context)
  (mountPoint : string) : M W (FindmntResult * FindmntWrapper) :=
  fun w =>
    let f := with_stats (incr_totalCalls (stats f)) f in
    let result := {| MountPoint := mountPoint;
                     Status := MountStatusUnknown;
                     Target := ""; FSType := ""; Options := "";
                     Source := ""; Error_ := None |} in
    if IsOpen (circuitBreaker f) then
      let f := with_stats (incr_failedCalls (stats f)) f in
      let result := set_Error (Some errDisabled) result in
      let result := set_Status MountStatusUnknown result in
      ((result, f), w)
    else
      let '((err, cb), (w, fr)) :=
        Execute (circuitBreaker f) (executeFindmnt f ctx mountPoint)
          (w, {| frStats := stats f; frResult := result |}) in
      let f := with_stats (frStats fr) (with_circuitBreaker cb f) in
      let result := frResult fr in
      match err with
      | Some e =>
          let f := with_stats (incr_failedCalls (stats f)) f in
          if String.eqb (Error e) "circuit breaker is open" then
            let result := set_Error (Some errDisabled) result in
            let result := set_Status MountStatusUnknown result in
            ((result, f), w)
          else ((set_Error (Some e) result, f), w)
      | None =>
          ((result, with_stats (incr_successfulCalls (stats f)) f), w)
      end.

End Wrapper.


Definition GetCircuitBreakerState (f : FindmntWrapper) : State :=
  state (circuitBreaker f).

End system.

(** ** package metrics: the collector *)

Module metrics.
Import reliability system.

(** The two fields of [config.Config] the collector reads. *)
Record Config := {
  MountPoints : list string;
  Interval : Duration
}.

(** The metrics sent on the channel.  A gauge is 0 or 1 here and is kept as
    an integer; a duration is kept in nanoseconds, before its conversion to
    seconds. *)
Inductive Metric :=
| mountPointStatus (value : Z) (mount_point target fs_type source error : string)
| scrapeDuration (d : Duration) (mount_point : string)
| scrapeSuccess (value : Z) (mount_point : string)
| up (value : Z)
| totalScrapeDuration (d : Duration).

Record Collector := {
  config : Config;
  findmnt : FindmntWrapper
}.

Definition NewCollector (IsTransientError : error -> bool) (cfg : Config)
  : Collector :=
  {| config := cfg;
     findmnt := NewFindmntWrapper IsTransientError (Interval cfg) |}.

Section Collect.
Context {W : Type} `{Clock W} `{Waiter W} `{Findmnt W} `{DurationFormat}.

(** The body of the loop of [Collect] for one mount point: the wrapper,
    the health flag and the channel as the iteration leaves them. *)
Definition collectOne (mountPoint : string)
  (st : FindmntWrapper * Z * list Metric)
  : M W (FindmntWrapper * Z * list Metric) :=
  fun w =>
    let '(f, healthy, ch) := st in
    let scrapeStart := now w in
    let '((result, f), w) := CheckMountPoint f Background mountPoint w in
    let duration := time_Since scrapeStart w in
    let '(healthy, value, errorMsg) :=
      match Error_ result with
      | Some e => (0, 0, Error e)
      | None =>
          match Status result with
          | MountStatusMounted => (healthy, 1, "")
          | MountStatusNotMounted => (healthy, 0, "")
          | MountStatusUnknown => (healthy, 0, "unknown status")
          end
      end in
    let ch := (ch ++ [mountPointStatus value mountPoint (Target result)
                        (FSType result) (Source result) errorMsg])%list in
    let ch := (ch ++ [scrapeDuration duration mountPoint])%list in
    let ch := if isNil (Error_ result)
              then (ch ++ [scrapeSuccess 1 mountPoint])%list else ch in
    ((f, healthy, ch), w).

Fixpoint collectLoop (mountPoints : list string)
  (st : FindmntWrapper * Z * list Metric)
  : M W (FindmntWrapper * Z * list Metric) :=
  match mountPoints with
  | [] => ret st
  | mountPoint :: rest =>
      st <- collectOne mountPoint st ;;
      collectLoop rest st
  end.

(** [Collect]: the metrics sent on the channel, in order, with the
    collector as the call leaves it. *)
Definition Collect (c : Collector) : M W (list Metric * Collector) :=
  fun w =>
    let start := now w in
    let '((f, healthy, ch), w) :=
      collectLoop (MountPoints (config c)) (findmnt c, 1, []) w in
    let ch := (ch ++ [up healthy])%list in
    let ch := (ch ++ [totalScrapeDuration (time_Since start w)])%list in
    ((ch, {| config := config c; findmnt := f |}), w).

End Collect.

Definition UpdateConfig (IsTransientError : error -> bool) (cfg : Config)
  (c : Collector) : Collector :=
  {| config := cfg;
     findmnt := NewFindmntWrapper IsTransientError (Interval cfg) |}.

Definition GetFindmntWrapper (c : Collector) : FindmntWrapper := findmnt c.

End metrics.

(** ** package config: the configuration and its validation *)

Module config.

Record ServerConfig := { Host : string; Port : Z; Path : string }.

Record LoggingConfig := { Level : string; Format : string }.

(** The struct without its mutex. *)
Record Config := {
  Server : ServerConfig;
  MountPoints : list string;
  Interval : Duration;
  Logging : LoggingConfig
}.

Definition DefaultConfig : Config :=
  {| Server := {| Host := "0.0.0.0"; Port := 8080; Path := "/metrics" |};
     MountPoints := [];
     Interval := 30 * Second;
     Logging := {| Level := "info"; Format := "json" |} |}.

(** [s[0] != '/'] for a string that is not empty. *)
Definition firstIsNotSlash (s : string) : bool :=
  match s with
  | String c _ => negb (Ascii.eqb c "/"%char)
  | EmptyString => false
  end.

(** The loop of [Validate] over the mount points. *)
Fixpoint validateMountPoints (mountPoints : list string) : option error :=
  match mountPoints with
  | [] => None
  | mp :: rest =>
      if String.eqb mp "" then
        Some (errorString "mount point cannot be empty")
      else if firstIsNotSlash mp then
        Some (errorString ("mount point must be absolute path, got " ++ mp))
      else validateMountPoints rest
  end.

(** The two maps of [Validate]; a key that is missing reads as false. *)
Definition validLogLevels (level : string) : bool :=
  existsb (String.eqb level) ["debug"; "info"; "warn"; "error"; "fatal"].

Definition validFormats (format : string) : bool :=
  existsb (String.eqb format) ["json"; "text"].

Definition Validate (c : Config) : option error :=
  if (Port (Server c) <? 1) || (65535 <? Port (Server c)) then
    Some (errorString ("server port must be between 1 and 65535, got "
                       ++ Itoa (Port (Server c))))
  else if String.eqb (Path (Server c)) "" then
    Some (errorString "server path cannot be empty")
  else if firstIsNotSlash (Path (Server c)) then
    Some (errorString ("server path must start with '/', got "
                       ++ Path (Server c)))
  else if Interval c <=? 0 then
    Some (timedOutError "interval must be positive, got " (Interval c))
  else if (List.length (MountPoints c) =? 0)%nat then
    Some (errorString "at least one mount point must be configured")
  else
    match validateMountPoints (MountPoints c) with
    | Some err => Some err
    | None =>
        if negb (validLogLevels (Level (Logging c))) then
          Some (errorString ("invalid log level " ++ Level (Logging c)
                             ++ ", must be one of: debug, info, warn, error, fatal"))
        else if negb (validFormats (Format (Logging c))) then
          Some (errorString ("invalid log format " ++ Format (Logging c)
                             ++ ", must be one of: json, text"))
        else None
    end.

(** [GetAddress]: [fmt.Sprintf("%s:%d", host, port)]. *)
Definition GetAddress (c : Config) : string :=
  Host (Server c) ++ ":" ++ Itoa (Port (Server c)).

End config.

(** ** Instruments of the verification *)

(** A world that counts what is asked of it: the invocations of the operation
    under study (or of the findmnt command) and the backoff waits. *)
Record Counted (W : Type) := {
  base : W;
  invocations : nat;
  waits : nat
}.
Arguments base {W} _.
Arguments invocations {W} _.
Arguments waits {W} _.

Definition counted {W} (w : W) : Counted W :=
  {| base := w; invocations := 0; waits := 0 |}.

#[export] Instance Clock_Counted {W} `{Clock W} : Clock (Counted W) :=
  fun c => now (base c).

#[export] Instance Waiter_Counted {W} `{Waiter W} : Waiter (Counted W) :=
  fun attempt c =>
    let (r, w) := selectAfterOrDone attempt (base c) in
    (r, {| base := w; invocations := invocations c; waits := S (waits c) |}).

#[export] Instance Findmnt_Counted {W} `{Findmnt W} : Findmnt (Counted W) :=
  fun ctx timeout mountPoint c =>
    let (o, w) := runFindmnt ctx timeout mountPoint (base c) in
    (o, {| base := w; invocations := S (invocations c); waits := waits c |}).

(** An operation whose behaviour may depend on how often it has been invoked
    ([op i] is its invocation number [i], from 0), made to count. *)
Definition indexed {W A} (op : nat -> M W A) : M (Counted W) A :=
  fun c =>
    let (a, w) := op (invocations c) (base c) in
    (a, {| base := w; invocations := S (invocations c); waits := waits c |}).

Definition counting {W A} (fn : M W A) : M (Counted W) A :=
  indexed (fun _ => fn).

(** Something else happening in the world (time passing) between two calls. *)
Definition meanwhile {W} (g : W -> W) (c : Counted W) : Counted W :=
  {| base := g (base c); invocations := invocations c; waits := waits c |}.

(** An operation fails when it returns an error in every world. *)
Definition failing {W} (fn : M W (option error)) : Prop :=
  forall w, fst (fn w) <> None.

Section Runs.
Context {W : Type} `{Clock W}.
Import reliability.

(** [Execute] called with each operation in turn. *)
Fixpoint ExecuteAll (cb : CircuitBreaker) (fns : list (M W (option error)))
  : M W CircuitBreaker :=
  match fns with
  | [] => ret cb
  | fn :: rest =>
      fun w => let '((_, cb), w) := Execute cb fn w in ExecuteAll cb rest w
  end.

(** A call on a breaker. *)
Inductive Call :=
| CallExecute (fn : M W (option error))
| CallReset.

Definition call (c : Call) (cb : CircuitBreaker) : M W CircuitBreaker :=
  match c with
  | CallExecute fn => fun w => let '((_, cb), w) := Execute cb fn w in (cb, w)
  | CallReset => ret (Reset cb)
  end.

(** The states a breaker goes through under a sequence of calls, the
    starting state first. *)
Fixpoint statesUnder (calls : list Call) (cb : CircuitBreaker) (w : W)
  : list State :=
  state cb ::
  match calls with
  | [] => []
  | c :: rest => let (cb, w) := call c cb w in statesUnder rest cb w
  end.

End Runs.

(** The four transitions of the specification. *)
Definition legal (from to : reliability.State) : bool :=
  match from, to with
  | reliability.StateClosed, reliability.StateOpen => true
  | reliability.StateOpen, reliability.StateHalfOpen => true
  | reliability.StateHalfOpen, reliability.StateClosed => true
  | reliability.StateHalfOpen, reliability.StateOpen => true
  | _, _ => false
  end.

(** Every change between two consecutive states is one of the four. *)
Fixpoint onlyLegal (states : list reliability.State) : bool :=
  match states with
  | a :: (b :: _) as rest =>
      (reliability.State_eqb a b || legal a b) && onlyLegal rest
  | _ => true
  end.

Section Checks.
Context {W : Type} `{Clock W} `{Waiter W} `{Findmnt W} `{DurationFormat}.
Import system.

(** [CheckMountPoint] called for each mount point in turn, the world moving
    on by [g] before each call. *)
Fixpoint CheckEach (calls : list ((W -> W) * Context * string))
  (f : FindmntWrapper) : M W (list FindmntResult * FindmntWrapper) :=
  match calls with
  | [] => ret ([], f)
  | (g, ctx, mountPoint) :: rest =>
      fun w =>
        let '((r, f), w) := CheckMountPoint f ctx mountPoint (g w) in
        let '((rs, f), w) := CheckEach rest f w in
        ((r :: rs, f), w)
  end.

(** The checks of one collection cycle: one for each configured mount
    point, in the order of the configuration, under the background
    context, one right after the other. *)
Definition cycle (mountPoints : list string)
  : list ((W -> W) * Context * string) :=
  map (fun mp => (fun w => w, Background, mp)) mountPoints.

End Checks.

(** The mount points the metrics of a channel are labelled with, per kind. *)
Definition statusTargets (ch : list metrics.Metric) : list string :=
  flat_map (fun m => match m with
                     | metrics.mountPointStatus _ mp _ _ _ _ => [mp]
                     | _ => []
                     end) ch.

Definition durationTargets (ch : list metrics.Metric) : list string :=
  flat_map (fun m => match m with
                     | metrics.scrapeDuration _ mp => [mp]
                     | _ => []
                     end) ch.

Definition successTargets (ch : list metrics.Metric) : list string :=
  flat_map (fun m => match m with
                     | metrics.scrapeSuccess _ mp => [mp]
                     | _ => []
                     end) ch.

Definition upValues (ch : list metrics.Metric) : list Z :=
  flat_map (fun m => match m with
                     | metrics.up v => [v]
                     | _ => []
                     end) ch.

Definition noError (r : system.FindmntResult) : bool :=
  isNil (system.Error_ r).


(** A small world to run the code in: a clock, a context that is done or
    not, and the outcome every run of the command has.  A timer that fires
    moves the clock by a millisecond. *)
Record Sim := {
  simClock : Time;
  simDone : bool;
  simCmd : CmdOutcome
}.

#[export] Instance Clock_Sim : Clock Sim := simClock.

#[export] Instance Waiter_Sim : Waiter Sim :=
  fun _ w =>
    if simDone w then (Some Canceled, w)
    else (None, {| simClock := simClock w + Millisecond;
                   simDone := simDone w; simCmd := simCmd w |}).

#[export] Instance Findmnt_Sim : Findmnt Sim :=
  fun _ _ _ w => (simCmd w, w).

(** Durations printed as a count of nanoseconds. *)
#[export] Instance plainDurations : DurationFormat :=
  fun d => Itoa d ++ "ns".

Definition sleep (d : Duration) (w : Sim) : Sim :=
  {| simClock := simClock w + d; simDone := simDone w; simCmd := simCmd w |}.

Definition mounted (out : string) : CmdOutcome :=
  {| output := out; cmdErr := None; ctxErr := None |}.

Definition exited (code : Z) (deadline : bool) : CmdOutcome :=
  {| output := "";
     cmdErr := Some (ExitError code ("exit status " ++ Itoa code));
     ctxErr := if deadline then Some DeadlineExceeded else None |}.

(** Operations for the examples: one that always fails, one that succeeds. *)
Definition failOp : M Sim (option error) :=
  fun w => (Some (errorString "test error"), w).

Definition okOp : M Sim (option error) := fun w => (None, w).

Definition testBreaker (maxFailures : Z) (resetTimeout : Duration)
  : reliability.CircuitBreaker :=
  reliability.NewCircuitBreaker
    {| reliability.Name := "test-cb";
       reliability.MaxFailures := maxFailures;
       reliability.ResetTimeout := resetTimeout;
       reliability.OnStateChange := true |}.

(** A world some time after the epoch in which the command reports the
    target as not found. *)
Definition world0 : Sim :=
  {| simClock := 1700000000 * Second; simDone := false;
     simCmd := exited 1 false |}.

(** The context is not done during the waits of a retry of [op]: the worlds
    [P] the retry goes through, which the operation and the waits do not
    leave, are worlds in which no wait is cut short by the context. *)
Record Undisturbed {W} `{Waiter W} (ctx : Context)
  (op : nat -> M W (option error)) (P : W -> Prop) : Prop := {
  op_keeps : forall i w, P w -> P (snd (op i w));
  wait_keeps : forall a w, P w -> P (snd (selectAfterOrDone a w));
  not_done : ctx = Background
             \/ forall a w, P w -> fst (selectAfterOrDone a w) = None
}.

Section Attempts.
Context {W : Type} `{Waiter W}.

(** The world as an iteration of the loop finds it once its wait, if it
    has one, is over. *)
Definition waited (a : Z) (c : Counted W) : Counted W :=
  if 0 <? a
  then {| base := snd (selectAfterOrDone a (base c));
          invocations := invocations c;
          waits := S (waits c) |}
  else c.

(** And as the invocation of the operation leaves it. *)
Definition invoked (op : nat -> M W (option error)) (c : Counted W)
  : Counted W :=
  {| base := snd (op (invocations c) (base c));
     invocations := S (invocations c);
     waits := waits c |}.

End Attempts.

(** A world in which the context wins every wait. *)
Definition cancelledWorld : Sim :=
  {| simClock := 1700000000 * Second; simDone := true;
     simCmd := exited 1 false |}.

(** A retry of the given number of attempts that retries every error but
    the one called fatal. *)
Definition testRetry (maxAttempts : Z) : reliability.Retry :=
  reliability.NewRetry
    [ reliability.WithMaxAttempts maxAttempts;
      reliability.WithBackoffStrategy reliability.BackoffStrategyFixed;
      reliability.WithShouldRetry
        (fun e => match e with
                  | errorString "non-retryable" => false
                  | _ => true
                  end) ].

(** An operation that fails on its first [n] invocations and succeeds
    afterwards. *)
Definition failsFirst (n : nat) (i : nat) : M Sim (option error) :=
  fun w => (if (i <? n)%nat then Some (errorString "test error") else None, w).

Definition fatalOp (i : nat) : M Sim (option error) :=
  fun w => (Some (errorString "non-retryable"), w).

(** A wrapper as [NewFindmntWrapper] makes it, and the same wrapper once
    five failures have opened its breaker.  [IsTransientError] finds none of
    its patterns in the errors of the examples below (the text of a timeout
    is "findmnt command timed out after ..."), so it retries none of them. *)
Definition testWrapper : system.FindmntWrapper :=
  system.NewFindmntWrapper (fun _ => false) (5 * Second).


(** The command run by the wrapper exits with the code for a target that is
    not found, and the deadline of its context has not expired. *)
Definition exitsNotFound (o : CmdOutcome) : Prop :=
  (exists text, cmdErr o = Some (ExitError 1 text))
  /\ ctxErr o <> Some DeadlineExceeded.

(** The world in which every run of the command has the given outcome. *)
Definition worldWith (o : CmdOutcome) : Sim :=
  {| simClock := 1700000000 * Second; simDone := false; simCmd := o |}.

(** A collector over the example wrapper. *)
Definition testCollector (mountPoints : list string) : metrics.Collector :=
  {| metrics.config := {| metrics.MountPoints := mountPoints;
                          metrics.Interval := 5 * Second |};
     metrics.findmnt := testWrapper |}.


(** A word: a string without a space in it. *)
Fixpoint noSpace (s : string) : bool :=
  match s with
  | EmptyString => true
  | String c t => negb (Ascii.eqb c " "%char) && noSpace t
  end.

(** ** Instruments for the rest of the code *)

Section MoreRuns.
Context {W : Type} `{Clock W}.
Import reliability.

(** The breaker as a sequence of calls leaves it. *)
Fixpoint callAll (calls : list Call) (cb : CircuitBreaker) : M W CircuitBreaker :=
  match calls with
  | [] => ret cb
  | c :: rest => fun w => let (cb, w) := call c cb w in callAll rest cb w
  end.

End MoreRuns.

(** The state a list of callbacks leads to from [s], when each callback
    carries the name [nm], starts in the state the one before ended in and
    changes it. *)
Fixpoint chainFrom (nm : string) (s : reliability.State)
  (log : list (string * reliability.State * reliability.State))
  : option reliability.State :=
  match log with
  | [] => Some s
  | (n, from, to) :: rest =>
      if String.eqb n nm && reliability.State_eqb from s
         && negb (reliability.State_eqb from to)
      then chainFrom nm to rest
      else None
  end.

(** An operation with a value, made to note in a frame the value of its
    last invocation; and the same operation without its value. *)
Definition recording {W T} (fn : M W (T * option error))
  : M (W * option T) (T * option error) :=
  fun p => let (res, w) := fn (fst p) in (res, (w, Some (fst res))).

Definition withoutValue {W T} (fn : M W (T * option error))
  : M W (option error) :=
  fun w => let (res, w) := fn w in (snd res, w).

(** An operation that succeeds in every world. *)
Definition succeeding {W} (fn : M W (option error)) : Prop :=
  forall w, fst (fn w) = None.

(** What a breaker keeps through any call: its configuration, and the
    callbacks spawned so far, which tell its changes of state one by one. *)
Definition keeps (nm : string) (s0 : reliability.State)
  (cb cb' : reliability.CircuitBreaker) : Prop :=
  reliability.name cb' = reliability.name cb
  /\ reliability.maxFailures cb' = reliability.maxFailures cb
  /\ reliability.resetTimeout cb' = reliability.resetTimeout cb
  /\ reliability.onStateChange cb' = reliability.onStateChange cb
  /\ (reliability.onStateChange cb = false ->
      reliability.notified cb' = reliability.notified cb)
  /\ (reliability.onStateChange cb = true -> reliability.name cb = nm ->
      chainFrom nm s0 (reliability.notified cb)
      = Some (reliability.state cb) ->
      chainFrom nm s0 (reliability.notified cb')
      = Some (reliability.state cb')).

(** The counter against the threshold, per state. *)
Definition counts (cb : reliability.CircuitBreaker) : Prop :=
  1 <= reliability.maxFailures cb <= maxInt64
  /\ (reliability.state cb = reliability.StateClosed ->
      0 <= reliability.failures cb < reliability.maxFailures cb)
  /\ (reliability.state cb = reliability.StateHalfOpen ->
      reliability.failures cb = 0).

(** The ways a run of [Do] ends: with the error [err], after [inv]
    invocations of the operation and [wts] waits. *)
Definition ended (r : reliability.Retry) (ctx : Context) (err : option error)
  (inv wts : nat) : Prop :=
  match err with
  | None => (1 <= inv)%nat /\ wts = (inv - 1)%nat
  | Some err =>
      (exists cause,
          ctx = WithCancel /\ err = reliability.errRetryCancelled cause
          /\ (1 <= inv)%nat /\ wts = inv)
      \/ (exists last,
            err = reliability.errMaxAttempts r last
            /\ wts = (inv - 1)%nat
            /\ (last = None -> inv = 0%nat)
            /\ (forall e, last = Some e ->
                  reliability.ShouldRetry (reliability.config r) e = true ->
                  Z.of_nat inv = reliability.MaxAttempts (reliability.config r)))
  end.

(** The result [CheckMountPoint] starts from, and the shape of a result
    that a run of the command has settled: no error, and attributes only
    with the status mounted. *)
Definition fresh (mountPoint : string) : system.FindmntResult :=
  {| system.MountPoint := mountPoint;
     system.Status := system.MountStatusUnknown;
     system.Target := ""; system.FSType := ""; system.Options := "";
     system.Source := ""; system.Error_ := None |}.

Definition settled (mountPoint : string) (r : system.FindmntResult) : Prop :=
  system.MountPoint r = mountPoint
  /\ system.Error_ r = None
  /\ (system.Status r = system.MountStatusMounted
      \/ system.Target r = "" /\ system.FSType r = ""
         /\ system.Options r = "" /\ system.Source r = "").

(** The status samples of a channel, and the status sample that goes with
    a result: 1 for the status mounted and 0 otherwise, labelled with the
    attributes of the result and with the text of its error, "unknown
    status" standing for a status unknown without error. *)
Definition statusSamples (ch : list metrics.Metric) : list metrics.Metric :=
  filter (fun m => match m with
                   | metrics.mountPointStatus _ _ _ _ _ _ => true
                   | _ => false
                   end) ch.

Definition statusSample `{DurationFormat} (r : system.FindmntResult)
  : metrics.Metric :=
  metrics.mountPointStatus
    (match system.Status r with
     | system.MountStatusMounted => 1
     | _ => 0
     end)
    (system.MountPoint r) (system.Target r) (system.FSType r)
    (system.Source r)
    (match system.Error_ r with
     | Some e => Error e
     | None => match system.Status r with
               | system.MountStatusUnknown => "unknown status"
               | _ => ""
               end
     end).



(** Strings of bytes below 0x80, and their lowering byte by byte. *)
Definition isASCII (s : string) : bool :=
  forallb (fun b => (b <? 0x80)%N) (utf8.bytes s).

Definition lowerByte (c : ascii) : ascii :=
  if ((65 <=? N_of_ascii c) && (N_of_ascii c <=? 90))%N
  then ascii_of_N (N_of_ascii c + 32)
  else c.

Fixpoint lowerASCII (s : string) : string :=
  match s with
  | EmptyString => EmptyString
  | String c t => String (lowerByte c) (lowerASCII t)
  end.

(** The wrapper as the code makes it, with [IsTransientError] as the
    predicate of its retry. *)
Definition realWrapper (timeout : Duration) : system.FindmntWrapper :=
  system.NewFindmntWrapper
    (fun e => reliability.IsTransientError (Some e)) timeout.

(** * Properties *)

(** ** The circuit breaker *)

Section BreakerFacts.
Context {W : Type} `{Clock W}.
Import reliability.

Lemma wrap64_id (z : Z) : minInt64 <= z <= maxInt64 -> wrap64 z = z.
Proof.
  unfold wrap64, minInt64, maxInt64. intros Hz.
  rewrite Z.mod_small; lia.
Qed.

Lemma State_eqb_eq (a b : State) : State_eqb a b = true <-> a = b.
Proof. destruct a, b; simpl; split; congruence. Qed.

Lemma State_eqb_refl (a : State) : State_eqb a a = true.
Proof. now destruct a. Qed.

(** A refused call: nothing runs and nothing changes. *)
Lemma Execute_refused (cb : CircuitBreaker) (fn : M W (option error)) (w : W) :
  state cb = StateOpen ->
  time_Since (lastFailTime cb) w < resetTimeout cb ->
  Execute cb fn w = ((Some errCircuitOpen, cb), w).
Proof.
  intros Hs Ht. unfold Execute, allowRequest. rewrite Hs.
  destruct (Z.leb_spec (resetTimeout cb) (time_Since (lastFailTime cb) w));
    [lia | reflexivity].
Qed.

(** A call let through runs the operation once and records its result. *)
Lemma Execute_allowed (cb : CircuitBreaker) (fn : M W (option error)) (w : W) :
  allowRequest cb w = true ->
  Execute cb fn w =
    ((fst (fn w), recordResult cb (isNil (fst (fn w))) (snd (fn w))),
     snd (fn w)).
Proof.
  intros Ha. unfold Execute. rewrite Ha. simpl. now destruct (fn w).
Qed.

Lemma allowRequest_closed (cb : CircuitBreaker) (w : W) :
  state cb = StateClosed -> allowRequest cb w = true.
Proof. intros Hs. unfold allowRequest. now rewrite Hs. Qed.

(** A failure below the threshold leaves the breaker closed. *)
Lemma onFailure_below (cb : CircuitBreaker) (w : W) :
  state cb = StateClosed ->
  0 <= failures cb -> failures cb + 1 < maxFailures cb ->
  maxFailures cb <= maxInt64 ->
  let cb' := onFailure cb w in
  state cb' = StateClosed /\ failures cb' = failures cb + 1
  /\ maxFailures cb' = maxFailures cb.
Proof.
  intros Hs H0 Hlt Hmax. unfold onFailure. simpl. rewrite Hs.
  rewrite wrap64_id by (unfold minInt64, maxInt64 in *; lia).
  destruct (Z.leb_spec (maxFailures cb) (failures cb + 1)); [lia |].
  simpl. auto.
Qed.

(** The failure that reaches the threshold opens it. *)
Lemma onFailure_threshold (cb : CircuitBreaker) (w : W) :
  state cb = StateClosed ->
  0 <= failures cb -> failures cb + 1 = maxFailures cb ->
  maxFailures cb <= maxInt64 ->
  let cb' := onFailure cb w in
  state cb' = StateOpen /\ failures cb' = maxFailures cb
  /\ lastFailTime cb' = now w.
Proof.
  intros Hs H0 Heq Hmax. unfold onFailure. simpl. rewrite Hs.
  rewrite wrap64_id by (unfold minInt64, maxInt64 in *; lia).
  destruct (Z.leb_spec (maxFailures cb) (failures cb + 1)); [| lia].
  unfold setState. simpl. rewrite Hs. simpl. auto.
Qed.

End BreakerFacts.

Section BreakerRuns.
Context {W : Type} `{Clock W}.
Import reliability.

Lemma failing_counting (fn : M W (option error)) (c : Counted W) :
  failing fn -> isNil (fst (counting fn c)) = false.
Proof.
  intros Hf. unfold counting, indexed. specialize (Hf (base c)).
  destruct (fn (base c)) as [[e |] w]; simpl in *; congruence.
Qed.

Lemma invocations_counting {A} (fn : M W A) (c : Counted W) :
  invocations (snd (counting fn c)) = S (invocations c).
Proof. unfold counting, indexed. now destruct (fn (base c)). Qed.

(** Failing calls below the threshold: the breaker stays closed, counts
    them, and every operation has run once. *)
Lemma ExecuteAll_below (fns : list (M W (option error))) :
  forall (cb : CircuitBreaker) (c : Counted W),
    state cb = StateClosed ->
    0 <= failures cb ->
    failures cb + Z.of_nat (List.length fns) < maxFailures cb ->
    maxFailures cb <= maxInt64 ->
    Forall failing fns ->
    let r := ExecuteAll cb (map counting fns) c in
    state (fst r) = StateClosed
    /\ failures (fst r) = failures cb + Z.of_nat (List.length fns)
    /\ maxFailures (fst r) = maxFailures cb
    /\ invocations (snd r) = (invocations c + List.length fns)%nat.
Proof.
  induction fns as [| fn fns IH]; intros cb c Hs H0 Hlt Hmax Hall; cbv zeta.
  - simpl. repeat split; try assumption; lia.
  - inversion Hall as [| ? ? Hfn Hrest]; subst.
    cbn [map ExecuteAll].
    rewrite Execute_allowed by now apply allowRequest_closed.
    rewrite failing_counting by assumption. cbn [recordResult].
    assert (Hlen : Z.of_nat (List.length (fn :: fns))
                   = 1 + Z.of_nat (List.length fns))
      by (cbn [List.length]; lia).
    rewrite Hlen in *.
    destruct (onFailure_below cb (snd (counting fn c)) Hs H0 ltac:(lia) Hmax)
      as (Hs' & Hf' & Hm').
    destruct (IH (onFailure cb (snd (counting fn c))) (snd (counting fn c)))
      as (I1 & I2 & I3 & I4);
      [assumption | lia | lia | lia | assumption |].
    rewrite invocations_counting in I4. cbn [List.length].
    repeat split; try assumption; lia.
Qed.

End BreakerRuns.

Lemma ExecuteAll_app {W} `{Clock W} (fns1 fns2 : list (M W (option error))) :
  forall (cb : reliability.CircuitBreaker) (w : W),
    ExecuteAll cb (fns1 ++ fns2) w =
    ExecuteAll (fst (ExecuteAll cb fns1 w)) fns2 (snd (ExecuteAll cb fns1 w)).
Proof.
  induction fns1 as [| fn fns1 IH]; intros cb w; [reflexivity |].
  cbn [app ExecuteAll].
  destruct (reliability.Execute cb fn w) as [[e cb1] w1]. apply IH.
Qed.

Section BreakerThreshold.
Context {W : Type} `{Clock W}.
Import reliability.

(** A proper prefix of the failing calls leaves the breaker closed. *)
Lemma ExecuteAll_prefix (fns : list (M W (option error))) (k : nat)
  (cb : CircuitBreaker) (c : Counted W) :
  state cb = StateClosed -> failures cb = 0 ->
  Z.of_nat (List.length fns) = maxFailures cb ->
  maxFailures cb <= maxInt64 ->
  Forall failing fns ->
  (k < List.length fns)%nat ->
  IsOpen (fst (ExecuteAll cb (map counting (firstn k fns)) c)) = false.
Proof.
  intros Hs Hf Hlen Hmax Hall Hk.
  rewrite <- (firstn_skipn k fns) in Hall. apply Forall_app in Hall.
  destruct Hall as [Hpre _].
  assert (Hl : List.length (firstn k fns) = k) by (apply firstn_length_le; lia).
  destruct (ExecuteAll_below (firstn k fns) cb c) as (S1 & _);
    try assumption; try lia.
  unfold IsOpen. now rewrite S1.
Qed.

(** C3 (error handling).  With [maxFailures = N], [N >= 1], a closed breaker
    with no failure counted is open after exactly [N] failing [Execute]
    calls (and not before), each of which ran its operation once.  A
    further [Execute] made while less than [resetTimeout] has passed since
    the last failure returns the circuit-open error, leaves the world as it
    found it (the operation is not invoked) and leaves the breaker
    unchanged, with its state, counter and time stamp. *)
Theorem C3_open_after_threshold_then_rejects
  (N : Z) (cb : CircuitBreaker) (fns : list (M W (option error))) (w : W) :
  1 <= N <= maxInt64 ->
  maxFailures cb = N ->
  state cb = StateClosed ->
  failures cb = 0 ->
  Z.of_nat (List.length fns) = N ->
  Forall failing fns ->
  let cb' := fst (ExecuteAll cb (map counting fns) (counted w)) in
  let w' := snd (ExecuteAll cb (map counting fns) (counted w)) in
  IsOpen cb' = true
  /\ invocations w' = List.length fns
  /\ (forall k, (k < List.length fns)%nat ->
        IsOpen (fst (ExecuteAll cb (map counting (firstn k fns)) (counted w)))
        = false)
  /\ (forall (fn : M W (option error)) (c : Counted W),
        time_Since (lastFailTime cb') c < resetTimeout cb' ->
        Execute cb' (counting fn) c = ((Some errCircuitOpen, cb'), c)).
Proof.
  intros HN Hmax Hs Hf Hlen Hall cb' w'.
  assert (Hopen : IsOpen cb' = true /\ invocations w' = List.length fns).
  { subst cb' w'.
    destruct fns as [| fn0 fns0] using rev_ind; [simpl in Hlen; lia |].
    clear IHfns0. rename fns0 into pre, fn0 into fn.
    apply Forall_app in Hall. destruct Hall as [Hpre Hlast].
    inversion Hlast as [| ? ? Hfn _]; subst.
    rewrite length_app in *. cbn [List.length] in *.
    rewrite map_app, ExecuteAll_app.
    destruct (ExecuteAll_below pre cb (counted w))
      as (S1 & S2 & S3 & S4); try assumption; try lia.
    remember (ExecuteAll cb (map counting pre) (counted w)) as r eqn:Hr.
    destruct r as [cb1 c1]. cbn [fst snd] in *.
    cbn [map ExecuteAll].
    rewrite Execute_allowed by now apply allowRequest_closed.
    rewrite failing_counting by assumption. cbn [recordResult ret fst snd].
    destruct (onFailure_threshold cb1 (snd (counting fn c1)))
      as (T1 & T2 & T3); try assumption; try lia.
    split.
    - unfold IsOpen. now rewrite T1.
    - rewrite invocations_counting, S4. cbn [counted invocations]. lia. }
  destruct Hopen as [Ho Hi].
  repeat split; try assumption.
  - intros k Hk. apply ExecuteAll_prefix; try assumption; lia.
  - intros fn c Ht. apply Execute_refused; [| assumption].
    unfold IsOpen in Ho. now apply State_eqb_eq in Ho.
Qed.

End BreakerThreshold.

Lemma C3_open_after_threshold_then_rejects_witness :
  let cb' := fst (ExecuteAll (testBreaker 3 (100 * Millisecond))
                    (map counting [failOp; failOp; failOp]) (counted world0)) in
  let w' := snd (ExecuteAll (testBreaker 3 (100 * Millisecond))
                   (map counting [failOp; failOp; failOp]) (counted world0)) in
  reliability.IsOpen cb' = true
  /\ invocations w' = 3%nat
  /\ reliability.Execute cb' (counting okOp) (meanwhile (sleep (60 * Millisecond)) w')
     = ((Some reliability.errCircuitOpen, cb'),
        meanwhile (sleep (60 * Millisecond)) w').
Proof.
  intros cb' w'.
  destruct (C3_open_after_threshold_then_rejects 3
              (testBreaker 3 (100 * Millisecond)) [failOp; failOp; failOp] world0)
    as (A & B & _ & D).
  - unfold maxInt64. lia.
  - reflexivity.
  - reflexivity.
  - reflexivity.
  - reflexivity.
  - repeat constructor; intros w; discriminate.
  - split; [exact A | split; [exact B |]].
    apply D. vm_compute. reflexivity.
Defined.

Section BreakerProbe.
Context {W : Type} `{Clock W}.
Import reliability.

(** What the code does with the call that follows an elapsed reset
    timeout: the operation runs once; its failure leaves the breaker open,
    its success moves the breaker to half-open, not to closed. *)
Lemma Execute_after_reset_timeout (cb : CircuitBreaker)
  (fn : M W (option error)) (c : Counted W) :
  state cb = StateOpen ->
  resetTimeout cb <= time_Since (lastFailTime cb) c ->
  now c <= now (snd (counting fn c)) ->
  let r := Execute cb (counting fn) c in
  fst (fst r) = fst (counting fn c)
  /\ invocations (snd r) = S (invocations c)
  /\ (fst (fst r) <> None -> state (snd (fst r)) = StateOpen)
  /\ (fst (fst r) = None ->
      state (snd (fst r)) = StateHalfOpen /\ failures (snd (fst r)) = 0).
Proof.
  intros Hs Ht Hmono r. subst r.
  rewrite Execute_allowed.
  2:{ unfold allowRequest. rewrite Hs. now apply Z.leb_le. }
  cbn [fst snd]. rewrite invocations_counting.
  split; [reflexivity | split; [reflexivity | split]].
  - intros Hne. destruct (fst (counting fn c)); [| congruence].
    cbn. unfold onFailure. cbn. now rewrite Hs.
  - intros Hok. rewrite Hok. cbn. unfold onSuccess. cbn. rewrite Hs.
    assert (Hle : resetTimeout cb
                  <= time_Since (lastFailTime cb) (snd (counting fn c))).
    { unfold time_Since, Time_Sub in *. lia. }
    apply Z.leb_le in Hle. rewrite Hle. unfold setState. cbn.
    rewrite Hs. split; reflexivity.
Qed.

End BreakerProbe.

(** C1 (functional correctness), where the code departs from the claim.
    The scenario of [TestCircuitBreaker_ResetTimeout]: [maxFailures = 2],
    [resetTimeout = 50ms]; two failures open the breaker; 100ms later one
    successful call is let through, once.  The claim and the test expect the
    breaker closed then; the code leaves it half-open (with the counter at 0),
    having spawned the callbacks closed to open and open to half-open only. *)
Theorem C1_success_after_reset_timeout_is_half_open :
  let opened := ExecuteAll (testBreaker 2 (50 * Millisecond))
                  (map counting [failOp; failOp]) (counted world0) in
  let later := meanwhile (sleep (100 * Millisecond)) (snd opened) in
  let probe := reliability.Execute (fst opened) (counting okOp) later in
  reliability.IsOpen (fst opened) = true
  /\ fst (fst probe) = None
  /\ invocations (snd probe) = S (invocations later)
  /\ reliability.failures (snd (fst probe)) = 0
  /\ reliability.state (snd (fst probe)) = reliability.StateHalfOpen
  /\ reliability.IsClosed (snd (fst probe)) = false
  /\ reliability.notified (snd (fst probe))
     = [("test-cb", reliability.StateClosed, reliability.StateOpen);
        ("test-cb", reliability.StateOpen, reliability.StateHalfOpen)].
Proof. vm_compute. repeat split. Qed.

(** C4 (invariants), the claim as stated fails: [Reset] takes an open
    breaker straight to closed, which is none of the four transitions. *)
Lemma C4_reset_takes_open_to_closed :
  let calls := [CallExecute failOp; CallExecute failOp; CallReset] in
  statesUnder calls (testBreaker 2 (50 * Millisecond)) world0
  = [reliability.StateClosed; reliability.StateClosed;
     reliability.StateOpen; reliability.StateClosed]
  /\ onlyLegal (statesUnder calls (testBreaker 2 (50 * Millisecond)) world0)
     = false.
Proof. vm_compute. split; reflexivity. Qed.

Section BreakerTransitions.
Context {W : Type} `{Clock W}.
Import reliability.

Ltac split_ifs :=
  repeat match goal with
         | |- context [if ?b then _ else _] => destruct b eqn:?
         end.

(** C4 (invariants), amended.  Whatever the breaker, a call of [Execute]
    or [Reset] either leaves the state as it is or makes one of the changes
    closed to open, open to half-open, half-open to closed, half-open to
    open, or is a [Reset] taking open to closed.  A change to open leaves
    the time of the recorded failure in [lastFailTime]; a change to closed
    leaves the failure counter at zero. *)
Theorem C4_transitions_of_a_call (c : Call) (cb : CircuitBreaker) (w : W) :
  let cb' := fst (call c cb w) in
  let w' := snd (call c cb w) in
  (state cb' = state cb
   \/ legal (state cb) (state cb') = true
   \/ (c = CallReset /\ state cb = StateOpen /\ state cb' = StateClosed))
  /\ (state cb <> StateOpen -> state cb' = StateOpen ->
      lastFailTime cb' = now w')
  /\ (state cb <> StateClosed -> state cb' = StateClosed ->
      failures cb' = 0).
Proof.
  destruct c as [fn |]; cbn [call].
  - unfold Execute.
    destruct (allowRequest cb w) eqn:Ha; cbn [negb].
    + destruct (fn w) as [[e |] w1]; cbn [isNil recordResult fst snd];
        unfold onSuccess, onFailure, setState; cbn;
        destruct (state cb) eqn:Hs; cbn; split_ifs; cbn;
        rewrite ?Hs; cbn; intuition congruence.
    + cbn. intuition congruence.
  - unfold Reset, setState, ret; cbn.
    destruct (state cb) eqn:Hs; cbn; rewrite ?Hs; cbn; intuition congruence.
Qed.

End BreakerTransitions.

Lemma C4_transitions_of_a_call_witness :
  let cb := fst (ExecuteAll (testBreaker 2 (50 * Millisecond))
                   [failOp; failOp] world0) in
  reliability.state cb = reliability.StateOpen
  /\ reliability.failures cb = 2
  /\ reliability.failures (fst (call CallReset cb world0)) = 0.
Proof.
  intros cb.
  destruct (C4_transitions_of_a_call CallReset cb world0) as (_ & _ & Hclosed).
  split; [reflexivity | split; [reflexivity |]].
  apply Hclosed.
  - vm_compute. discriminate.
  - reflexivity.
Defined.

(** ** The retry driver *)

Section RetryFacts.
Context {W : Type} `{Waiter W}.
Import reliability.

Lemma backoffWait_not_done (ctx : Context) (op : nat -> M W (option error))
  (P : W -> Prop) (a : Z) (c : Counted W) :
  Undisturbed ctx op P -> P (base c) ->
  backoffWait ctx a c =
    (None, {| base := snd (selectAfterOrDone a (base c));
              invocations := invocations c;
              waits := S (waits c) |}).
Proof.
  intros [_ _ Hnd] Hp. unfold backoffWait, bind, ret.
  unfold selectAfterOrDone at 1, Waiter_Counted.
  destruct Hnd as [-> | Hnd].
  - now destruct (selectAfterOrDone a (base c)).
  - specialize (Hnd a (base c) Hp).
    destruct (selectAfterOrDone a (base c)) as [o w]; simpl in *.
    subst o. now destruct ctx.
Qed.

(** One iteration of the loop of [Do] when the context is not done. *)
Lemma DoLoop_iteration (r : Retry) (ctx : Context)
  (op : nat -> M W (option error)) (P : W -> Prop) (n : nat) (a : Z)
  (lastErr : option error) (c : Counted W) :
  Undisturbed ctx op P -> P (base c) ->
  DoLoop r ctx (indexed op) (S n) a lastErr c =
    match fst (op (invocations (waited a c)) (base (waited a c))) with
    | None => (None, invoked op (waited a c))
    | Some e =>
        if negb (ShouldRetry (config r) e)
        then (Some (errMaxAttempts r (Some e)), invoked op (waited a c))
        else if a =? MaxAttempts (config r) - 1
        then (Some (errMaxAttempts r (Some e)), invoked op (waited a c))
        else DoLoop r ctx (indexed op) n (a + 1) (Some e)
               (invoked op (waited a c))
    end.
Proof.
  intros Hu Hp. cbn [DoLoop]. unfold bind at 1.
  assert (Hwait : (if 0 <? a then backoffWait ctx a else ret None) c
                  = (None, waited a c)).
  { unfold waited. destruct (0 <? a);
      [now apply (backoffWait_not_done ctx op P) | reflexivity]. }
  rewrite Hwait. unfold bind at 1. unfold indexed at 1, invoked.
  destruct (op (invocations (waited a c)) (base (waited a c))) as [[e |] w1];
    cbn [fst snd]; [| reflexivity].
  destruct (negb (ShouldRetry (config r) e)); [reflexivity |].
  destruct (a =? MaxAttempts (config r) - 1); reflexivity.
Qed.

Lemma waited_counts (a : Z) (c : Counted W) :
  invocations (waited a c) = invocations c
  /\ waits (waited a c) = (waits c + (if (0 <? a)%Z then 1 else 0))%nat.
Proof. unfold waited. destruct (0 <? a); cbn; lia. Qed.

Lemma waited_keeps (ctx : Context) (op : nat -> M W (option error))
  (P : W -> Prop) (a : Z) (c : Counted W) :
  Undisturbed ctx op P -> P (base c) -> P (base (waited a c)).
Proof.
  intros [_ Hw _] Hp. unfold waited. destruct (0 <? a); cbn; auto.
Qed.

(** The loop of [Do] entered for attempt [j], when the operation fails
    with retryable errors up to invocation [j + d] and succeeds there. *)
Lemma DoLoop_succeeds (r : Retry) (ctx : Context)
  (op : nat -> M W (option error)) (P : W -> Prop) (d : nat) :
  forall (j n : nat) (lastErr : option error) (c : Counted W),
    Undisturbed ctx op P -> P (base c) ->
    invocations c = j ->
    Z.of_nat n = MaxAttempts (config r) - Z.of_nat j ->
    Z.of_nat (j + d) < MaxAttempts (config r) ->
    (forall i w, P w -> (j <= i < j + d)%nat ->
       exists e, fst (op i w) = Some e /\ ShouldRetry (config r) e = true) ->
    (forall w, P w -> fst (op (j + d)%nat w) = None) ->
    fst (DoLoop r ctx (indexed op) n (Z.of_nat j) lastErr c) = None
    /\ invocations (snd (DoLoop r ctx (indexed op) n (Z.of_nat j) lastErr c))
       = S (j + d)
    /\ waits (snd (DoLoop r ctx (indexed op) n (Z.of_nat j) lastErr c))
       = (waits c + d + Nat.min j 1)%nat.
Proof.
  induction d as [| d IH]; intros j n lastErr c Hu Hp Hj Hn Hlt Hfail Hok;
    (destruct n as [| n]; [lia |]);
    rewrite (DoLoop_iteration r ctx op P) by assumption;
    destruct (waited_counts (Z.of_nat j) c) as [Hi Hw];
    pose proof (waited_keeps ctx op P (Z.of_nat j) c Hu Hp) as Hp';
    rewrite Hi, Hj.
  - rewrite Nat.add_0_r in *. rewrite Hok by assumption.
    cbn [fst snd invoked invocations waits].
    rewrite Hi, Hw, Hj.
    destruct (Z.ltb_spec 0 (Z.of_nat j)); repeat split; lia.
  - destruct (Hfail j (base (waited (Z.of_nat j) c))) as (e & He & Hretry);
      [assumption | lia |].
    rewrite He, Hretry. cbn [negb].
    destruct (Z.eqb_spec (Z.of_nat j) (MaxAttempts (config r) - 1)); [lia |].
    replace (Z.of_nat j + 1) with (Z.of_nat (S j)) by lia.
    destruct (IH (S j) n (Some e) (invoked op (waited (Z.of_nat j) c)))
      as (R1 & R2 & R3).
    + assumption.
    + cbn [invoked base]. rewrite Hi, Hj. now apply (op_keeps ctx op P Hu).
    + cbn [invoked invocations]. now rewrite Hi, Hj.
    + lia.
    + lia.
    + intros i w Hpw Hrange. apply Hfail; [assumption | lia].
    + intros w Hpw. replace (S j + d)%nat with (j + S d)%nat by lia.
      now apply Hok.
    + rewrite R1, R2, R3. cbn [invoked waits]. rewrite Hw.
      destruct (Z.ltb_spec 0 (Z.of_nat j)); repeat split; lia.
Qed.

End RetryFacts.

(** C6 (functional correctness), the claim as stated fails: with
    [maxAttempts = 2] and an operation that fails once with a retryable error
    and would succeed on its second invocation ([k = 2]), a context that is
    done during the wait makes [Do] return the retry-cancelled error after a
    single invocation. *)
Lemma C6_cancelled_wait_stops_before_success :
  let r := testRetry 2 in
  let res := reliability.Do r WithCancel (indexed (failsFirst 1))
               (counted cancelledWorld) in
  reliability.ShouldRetry (reliability.config r) (errorString "test error") = true
  /\ fst (failsFirst 1 0 cancelledWorld) = Some (errorString "test error")
  /\ fst (failsFirst 1 1 cancelledWorld) = None
  /\ fst res = Some (reliability.errRetryCancelled Canceled)
  /\ fst res <> None
  /\ invocations (snd res) = 1%nat.
Proof. vm_compute. repeat split; discriminate. Qed.

Section RetryClaims.
Context {W : Type} `{Waiter W}.
Import reliability.

(** C6 (functional correctness), amended.  For [maxAttempts >= 1] and an
    operation that fails with retryable errors on its first [k - 1]
    invocations and succeeds on invocation [k <= maxAttempts], provided the
    context is not done during the waits ([P] holds of the worlds the retry
    goes through), [Do] returns nil having invoked the operation exactly [k]
    times and waited [k - 1] times: nothing follows the success. *)
Theorem C6_success_on_attempt_k_short_circuits
  (r : Retry) (ctx : Context) (op : nat -> M W (option error))
  (P : W -> Prop) (k : nat) (w : W) :
  (1 <= k)%nat ->
  Z.of_nat k <= MaxAttempts (config r) ->
  (forall i w, P w -> (i < k - 1)%nat ->
     exists e, fst (op i w) = Some e /\ ShouldRetry (config r) e = true) ->
  (forall w, P w -> fst (op (k - 1)%nat w) = None) ->
  Undisturbed ctx op P ->
  P w ->
  fst (Do r ctx (indexed op) (counted w)) = None
  /\ invocations (snd (Do r ctx (indexed op) (counted w))) = k
  /\ waits (snd (Do r ctx (indexed op) (counted w))) = (k - 1)%nat.
Proof.
  intros Hk Hmax Hfail Hok Hu Hp. unfold Do.
  destruct (DoLoop_succeeds r ctx op P (k - 1) 0
              (Z.to_nat (MaxAttempts (config r))) None (counted w))
    as (R1 & R2 & R3); try assumption; try reflexivity; try lia.
  - intros i w0 Hp0 Hi. apply Hfail; [assumption | lia].
  - change (Z.of_nat 0) with 0 in *. rewrite R1, R2, R3.
    cbn [counted waits]. repeat split; lia.
Qed.

(** C7 (error handling).  For [maxAttempts >= 1], when every invocation of
    the operation returns an error the predicate does not retry, [Do]
    invokes the operation exactly once, waits for no backoff, and returns
    at once the error that wraps that failure. *)
Theorem C7_non_retryable_error_stops_at_once
  (r : Retry) (ctx : Context) (op : nat -> M W (option error)) (w : W) :
  1 <= MaxAttempts (config r) ->
  (forall i w, exists e,
      fst (op i w) = Some e /\ ShouldRetry (config r) e = false) ->
  exists e,
    fst (op 0%nat w) = Some e
    /\ Do r ctx (indexed op) (counted w)
       = (Some (errMaxAttempts r (Some e)),
          {| base := snd (op 0%nat w); invocations := 1; waits := 0 |}).
Proof.
  intros Hmax Hall. destruct (Hall 0%nat w) as (e & He & Hno).
  exists e. split; [assumption |].
  unfold Do.
  destruct (Z.to_nat (MaxAttempts (config r))) as [| n] eqn:Hn; [lia |].
  cbn [DoLoop]. change (0 <? 0) with false. cbv beta iota.
  unfold bind, ret, indexed, counted. cbn [base invocations waits].
  destruct (op 0%nat w) as [o w1]. cbn [fst snd] in *. subst o.
  now rewrite Hno.
Qed.

End RetryClaims.

Lemma C6_success_on_attempt_k_short_circuits_witness :
  let res := reliability.Do (testRetry 3) WithCancel (indexed (failsFirst 2))
               (counted world0) in
  fst res = None /\ invocations (snd res) = 3%nat /\ waits (snd res) = 2%nat.
Proof.
  apply (C6_success_on_attempt_k_short_circuits
           (testRetry 3) WithCancel (failsFirst 2)
           (fun w => simDone w = false) 3 world0).
  - lia.
  - vm_compute. discriminate.
  - intros i w _ Hi. exists (errorString "test error"). split; [| reflexivity].
    unfold failsFirst. cbn [fst].
    destruct (Nat.ltb_spec i 2); [reflexivity | lia].
  - intros w _. reflexivity.
  - split.
    + intros i w Hw. exact Hw.
    + intros a w Hw. unfold selectAfterOrDone, Waiter_Sim. now rewrite Hw.
    + right. intros a w Hw. unfold selectAfterOrDone, Waiter_Sim.
      now rewrite Hw.
  - reflexivity.
Defined.

Lemma C7_non_retryable_error_stops_at_once_witness :
  exists e,
    fst (fatalOp 0 world0) = Some e
    /\ reliability.Do (testRetry 3) Background (indexed fatalOp) (counted world0)
       = (Some (reliability.errMaxAttempts (testRetry 3) (Some e)),
          {| base := snd (fatalOp 0 world0); invocations := 1; waits := 0 |}).
Proof.
  apply (C7_non_retryable_error_stops_at_once
           (testRetry 3) Background fatalOp world0).
  - vm_compute. discriminate.
  - intros i w. exists (errorString "non-retryable"). split; reflexivity.
Defined.

(** ** The findmnt wrapper *)

Lemma Do_first_success {W} `{Waiter W} (r : reliability.Retry) (ctx : Context)
  (fn : M W (option error)) (w : W) :
  1 <= reliability.MaxAttempts (reliability.config r) ->
  fst (fn w) = None ->
  reliability.Do r ctx fn w = (None, snd (fn w)).
Proof.
  intros Hmax Hok. unfold reliability.Do.
  destruct (Z.to_nat _) as [| n] eqn:Hn; [lia |].
  cbn [reliability.DoLoop]. change (0 <? 0) with false. cbv beta iota.
  unfold bind, ret. destruct (fn w) as [o w1]. cbn in *. now subst o.
Qed.

Section WrapperFacts.
Context {W : Type} `{Clock W} `{Waiter W} `{Findmnt W} `{DurationFormat}.
Import reliability system.

(** With the breaker open, [CheckMountPoint] returns before anything is
    run: the world and the breaker are as they were. *)
Lemma CheckMountPoint_open (f : FindmntWrapper) (ctx : Context)
  (mountPoint : string) (w : W) :
  state (circuitBreaker f) = StateOpen ->
  CheckMountPoint f ctx mountPoint w =
    (({| MountPoint := mountPoint; Status := MountStatusUnknown;
         Target := ""; FSType := ""; Options := ""; Source := "";
         Error_ := Some errDisabled |},
      with_stats (incr_failedCalls (incr_totalCalls (stats f))) f), w).
Proof.
  intros Hs. unfold CheckMountPoint, IsOpen. cbn. now rewrite Hs.
Qed.

(** With the breaker not open and at least one attempt allowed, a first
    run of the command that ends without error ends the call: the command
    has run once, the breaker has recorded a success. *)
Lemma CheckMountPoint_first_run (f : FindmntWrapper) (ctx : Context)
  (mountPoint : string) (w : W) (result : FindmntResult) (st : Stats) (w1 : W) :
  state (circuitBreaker f) <> StateOpen ->
  1 <= MaxAttempts (config (retry f)) ->
  findmntOnce f ctx mountPoint
    (w, {| frStats := incr_totalCalls (stats f);
           frResult := {| MountPoint := mountPoint;
                          Status := MountStatusUnknown;
                          Target := ""; FSType := ""; Options := "";
                          Source := ""; Error_ := None |} |})
  = (None, (w1, {| frStats := st; frResult := result |})) ->
  CheckMountPoint f ctx mountPoint w =
    ((result,
      {| timeout := timeout f;
         circuitBreaker := onSuccess (circuitBreaker f) w1;
         retry := retry f;
         stats := incr_successfulCalls st |}), w1).
Proof.
  intros Hs Hmax Hrun. unfold CheckMountPoint.
  assert (Hopen : IsOpen (circuitBreaker
                            (with_stats (incr_totalCalls (stats f)) f)) = false).
  { unfold IsOpen. cbn. destruct (state (circuitBreaker f)) eqn:E; cbn; congruence. }
  rewrite Hopen. cbn [with_stats circuitBreaker stats].
  rewrite Execute_allowed.
  2:{ unfold allowRequest. destruct (state (circuitBreaker f)) eqn:E; congruence. }
  unfold executeFindmnt.
  change (findmntOnce (with_stats (incr_totalCalls (stats f)) f))
    with (findmntOnce f).
  change (retry (with_stats (incr_totalCalls (stats f)) f)) with (retry f).
  rewrite Do_first_success; [| assumption | now rewrite Hrun].
  rewrite Hrun. cbn. reflexivity.
Qed.

Lemma onSuccess_not_open (cb : CircuitBreaker) (w : W) :
  state cb <> StateOpen ->
  state (onSuccess cb w) = StateClosed /\ failures (onSuccess cb w) = 0.
Proof.
  intros Hs. unfold onSuccess, setState. cbn.
  destruct (state cb) eqn:E; cbn; rewrite ?E; cbn; try congruence; auto.
Qed.

End WrapperFacts.

Section WrapperClaims.
Context {W : Type} `{Clock W} `{Waiter W} `{Findmnt W} `{DurationFormat}.
Import reliability system.


Lemma findmntOnce_not_found (f : FindmntWrapper) (ctx : Context)
  (mountPoint : string) (c : Counted W) (fr : Frame) :
  exitsNotFound (fst (runFindmnt ctx (timeout f) mountPoint (base c))) ->
  findmntOnce f ctx mountPoint (c, fr) =
    (None,
     ({| base := snd (runFindmnt ctx (timeout f) mountPoint (base c));
         invocations := S (invocations c);
         waits := waits c |},
      {| frStats := incr_retryAttempts (frStats fr);
         frResult := set_Status MountStatusNotMounted (frResult fr) |})).
Proof.
  intros [[text He] Hd]. unfold findmntOnce.
  unfold runFindmnt at 1, Findmnt_Counted.
  destruct (runFindmnt ctx (timeout f) mountPoint (base c)) as [o w1].
  cbn [fst snd] in *. rewrite He.
  destruct (ctxErr o) as [[] |]; try reflexivity. congruence.
Qed.

(** C8 (functional correctness), amended.  When the command is run (the
    breaker is not open, an attempt is allowed) and exits with the code for
    a target that is not found, the deadline of its context not having
    expired when the wrapper reads it, [CheckMountPoint] returns status
    not-mounted and no error; the command has run exactly once and no
    backoff was waited for (no retry); the breaker has recorded a success,
    so its failure counter is not incremented: it is zero. *)
Theorem C8_not_found_is_a_successful_probe
  (f : FindmntWrapper) (ctx : Context) (mountPoint : string) (c : Counted W) :
  state (circuitBreaker f) <> StateOpen ->
  1 <= MaxAttempts (config (retry f)) ->
  exitsNotFound (fst (runFindmnt ctx (timeout f) mountPoint (base c))) ->
  let res := CheckMountPoint f ctx mountPoint c in
  Status (fst (fst res)) = MountStatusNotMounted
  /\ Error_ (fst (fst res)) = None
  /\ failures (circuitBreaker (snd (fst res))) = 0
  /\ (0 <= failures (circuitBreaker f) ->
      failures (circuitBreaker (snd (fst res))) <= failures (circuitBreaker f))
  /\ state (circuitBreaker (snd (fst res))) = StateClosed
  /\ invocations (snd res) = S (invocations c)
  /\ waits (snd res) = waits c.
Proof.
  intros Hs Hmax Hexit res. subst res.
  erewrite CheckMountPoint_first_run;
    [| assumption | assumption | now apply findmntOnce_not_found].
  cbn [fst snd circuitBreaker invocations waits].
  match goal with |- context [onSuccess ?cb ?w] =>
    destruct (onSuccess_not_open cb w Hs) as [S1 S2] end.
  rewrite S2. repeat split; auto; lia.
Qed.

End WrapperClaims.

(** C8 (functional correctness), the claim as stated fails: the wrapper
    looks at the deadline of the command's context before it looks at the
    exit code.  A command that exits with the not-found code while that
    deadline has expired is reported as a timeout: status unknown, an error,
    and a failure counted by the breaker. *)
Lemma C8_not_found_past_the_deadline_is_a_timeout :
  let res := system.CheckMountPoint testWrapper
               WithCancel "/definitely-nonexistent-mount-point-12345"
               (counted (worldWith (exited 1 true))) in
  cmdErr (exited 1 true) = Some (ExitError 1 "exit status 1")
  /\ system.Status (fst (fst res)) = system.MountStatusUnknown
  /\ system.Error_ (fst (fst res))
     = Some (reliability.errMaxAttempts (system.retry testWrapper)
               (Some (timedOutError "findmnt command timed out after "
                        (5 * Second))))
  /\ reliability.failures (system.circuitBreaker testWrapper) = 0
  /\ reliability.failures (system.circuitBreaker (snd (fst res))) = 1
  /\ invocations (snd res) = 1%nat.
Proof. vm_compute. repeat split. Qed.


Lemma C8_not_found_is_a_successful_probe_witness :
  let res := system.CheckMountPoint testWrapper
               Background "/definitely-nonexistent-mount-point-12345"
               (counted world0) in
  system.Status (fst (fst res)) = system.MountStatusNotMounted
  /\ system.Error_ (fst (fst res)) = None
  /\ reliability.failures (system.circuitBreaker (snd (fst res))) = 0
  /\ invocations (snd res) = 1%nat.
Proof.
  intros res.
  destruct (C8_not_found_is_a_successful_probe
              testWrapper Background
              "/definitely-nonexistent-mount-point-12345" (counted world0))
    as (A & B & C & _ & _ & F & _).
  - vm_compute. discriminate.
  - vm_compute. discriminate.
  - split; [now exists "exit status 1" | vm_compute; discriminate].
  - repeat split; assumption.
Defined.

(** *** White space *)

Section WhiteSpace.
Import strings.

























End WhiteSpace.

(** *** Parsing the output *)

Lemma Split_not_nil (s : string) (sep : ascii) : strings.Split s sep <> [].
Proof.
  destruct s as [| c t]; cbn; [discriminate |].
  destruct (Ascii.eqb c sep); [discriminate |].
  destruct (strings.Split t sep); discriminate.
Qed.

Lemma Split_word (w : string) :
  noSpace w = true -> strings.Split w " "%char = [w].
Proof.
  induction w as [| c t IH]; cbn; [reflexivity |].
  intros Hw. apply andb_true_iff in Hw. destruct Hw as [Hc Ht].
  apply negb_true_iff in Hc. rewrite Hc, IH by assumption. reflexivity.
Qed.

Lemma Split_word_space (w rest : string) :
  noSpace w = true ->
  strings.Split (w ++ String " "%char rest) " "%char
  = w :: strings.Split rest " "%char.
Proof.
  induction w as [| c t IH]; cbn; [reflexivity |].
  intros Hw. apply andb_true_iff in Hw. destruct Hw as [Hc Ht].
  apply negb_true_iff in Hc. rewrite Hc, IH by assumption. reflexivity.
Qed.

(** Words joined by single spaces are split into the same words again. *)
Lemma Split_Join (words : list string) :
  words <> [] ->
  forallb noSpace words = true ->
  strings.Split (strings.Join words " ") " "%char = words.
Proof.
  unfold strings.Join.
  induction words as [| w rest IH]; intros Hne Hall; [congruence |].
  cbn [forallb] in Hall. apply andb_true_iff in Hall. destruct Hall as [Hw Hrest].
  destruct rest as [| w' rest'].
  - cbn [String.concat]. now apply Split_word.
  - change (String.concat " " (w :: w' :: rest'))
      with (w ++ String " "%char (String.concat " " (w' :: rest')))%string.
    rewrite Split_word_space by assumption.
    rewrite IH; [reflexivity | discriminate | assumption].
Qed.

(** The assignments made from the fields of a line, on a result whose
    attributes are still empty. *)
Lemma assignFields_fresh (fields : list string) (mountPoint : string)
  (status : system.MountStatus) (err : option error) :
  fields <> [] ->
  system.assignFields fields
    {| system.MountPoint := mountPoint; system.Status := status;
       system.Target := ""; system.FSType := ""; system.Options := "";
       system.Source := ""; system.Error_ := err |}
  = {| system.MountPoint := mountPoint;
       system.Status := system.MountStatusMounted;
       system.Target := nth 0 fields "";
       system.FSType := nth 1 fields "";
       system.Options := nth 2 fields "";
       system.Source := strings.Join (skipn 3 fields) " ";
       system.Error_ := err |}.
Proof.
  intros Hne. unfold system.assignFields.
  destruct fields as [| f0 [| f1 [| f2 [| f3 rest]]]];
    [congruence | reflexivity ..].
Qed.


(** A first line that does not fit the buffer of the scanner is an error,
    whatever it holds, and nothing is assigned: the bound on the line in
    the property below is needed. *)
Lemma parseOutput_line_too_long (out : string) (result : system.FindmntResult) :
  strings.TrimSpace out <> "" ->
  bufio.MaxScanTokenSize <= Z.of_nat (String.length (bufio.firstLine out)) ->
  system.parseOutput out result
  = (Some (wrapError "failed to parse findmnt output: " (Some bufio.ErrTooLong)),
     result).
Proof.
  intros Hout Hlen. unfold system.parseOutput.
  destruct (strings.TrimSpace out) as [| c0 t0] eqn:Htrim; [congruence |].
  cbn [String.length Nat.eqb].
  unfold bufio.NewScanner. destruct out as [| c t]; [discriminate Htrim |].
  destruct (Z.leb_spec bufio.MaxScanTokenSize
              (Z.of_nat (String.length (bufio.firstLine (String c t)))));
    [reflexivity | lia].
Qed.


Section ParseClaim.
Context {W : Type} `{Clock W} `{Waiter W} `{Findmnt W} `{DurationFormat}.
Import reliability system.

Lemma findmntOnce_exit_zero (f : FindmntWrapper) (ctx : Context)
  (mountPoint : string) (c : Counted W) (fr : Frame) :
  cmdErr (fst (runFindmnt ctx (timeout f) mountPoint (base c))) = None ->
  findmntOnce f ctx mountPoint (c, fr) =
    (fst (parseOutput
            (output (fst (runFindmnt ctx (timeout f) mountPoint (base c))))
            (frResult fr)),
     ({| base := snd (runFindmnt ctx (timeout f) mountPoint (base c));
         invocations := S (invocations c);
         waits := waits c |},
      {| frStats := incr_retryAttempts (frStats fr);
         frResult :=
           snd (parseOutput
                  (output (fst (runFindmnt ctx (timeout f) mountPoint
                                  (base c))))
                  (frResult fr)) |})).
Proof.
  intros Herr. unfold findmntOnce.
  unfold runFindmnt at 1, Findmnt_Counted.
  destruct (runFindmnt ctx (timeout f) mountPoint (base c)) as [o w1].
  cbn [fst snd] in *. rewrite Herr. now destruct (parseOutput _ _).
Qed.


End ParseClaim.


(** ** The collector *)

Section CollectorClaim.
Context {W : Type} `{Clock W} `{Waiter W} `{Findmnt W} `{DurationFormat}.
Import reliability system metrics.

(** The metrics one iteration adds to the channel. *)
Lemma collectOne_adds (mountPoint : string) (f : FindmntWrapper)
  (healthy : Z) (ch : list Metric) (w : W) :
  let check := CheckMountPoint f Background mountPoint w in
  exists added,
    collectOne mountPoint (f, healthy, ch) w
    = ((snd (fst check),
        if noError (fst (fst check)) then healthy else 0,
        (ch ++ added)%list), snd check)
    /\ statusTargets added = [mountPoint]
    /\ durationTargets added = [mountPoint]
    /\ successTargets added
       = (if noError (fst (fst check)) then [mountPoint] else [])
    /\ upValues added = [].
Proof.
  intros check. subst check. unfold collectOne, noError.
  destruct (CheckMountPoint f Background mountPoint w) as [[result f1] w1].
  cbn [fst snd].
  destruct (Error_ result) as [e |]; cbn [isNil].
  - eexists. split; [rewrite <- app_assoc; reflexivity |].
    cbn. repeat split; reflexivity.
  - destruct (Status result);
      (eexists; split; [rewrite <- !app_assoc; reflexivity |]);
      cbn; repeat split; reflexivity.
Qed.

(** The loop of [Collect] makes the checks of the cycle, all of them, and
    adds the metrics of each mount point in order. *)
Lemma collectLoop_adds (mountPoints : list string) :
  forall (f : FindmntWrapper) (healthy : Z) (ch : list Metric) (w : W),
    let checks := CheckEach (cycle mountPoints) f w in
    let results := fst (fst checks) in
    exists added,
      collectLoop mountPoints (f, healthy, ch) w
      = ((snd (fst checks),
          if forallb noError results then healthy else 0,
          (ch ++ added)%list), snd checks)
      /\ List.length results = List.length mountPoints
      /\ statusTargets added = mountPoints
      /\ durationTargets added = mountPoints
      /\ successTargets added
         = map fst (filter (fun p => noError (snd p))
                      (combine mountPoints results))
      /\ upValues added = [].
Proof.
  induction mountPoints as [| mp rest IH]; intros f healthy ch w checks results;
    subst results checks.
  - exists []. cbn. rewrite app_nil_r. repeat split; reflexivity.
  - cbn [cycle map CheckEach collectLoop]. unfold bind at 1.
    destruct (collectOne_adds mp f healthy ch w)
      as (a1 & E1 & S1 & D1 & U1 & V1).
    rewrite E1.
    destruct (CheckMountPoint f Background mp w) as [[r f1] w1].
    cbn [fst snd] in *.
    specialize (IH f1 (if noError r then healthy else 0) (ch ++ a1)%list w1).
    cbv zeta in IH. fold (@cycle W rest).
    destruct IH as (a2 & E2 & L2 & S2 & D2 & U2 & V2).
    rewrite E2.
    destruct (CheckEach (cycle rest) f1 w1) as [[rs f2] w2].
    cbn [fst snd] in *.
    exists (a1 ++ a2)%list. split; [| split; [| split; [| split; [| split]]]].
    + rewrite app_assoc. cbn [forallb].
      destruct (noError r); cbn [andb]; [reflexivity |].
      now destruct (forallb noError rs).
    + cbn [List.length]. now rewrite L2.
    + unfold statusTargets in *. rewrite flat_map_app, S1, S2. reflexivity.
    + unfold durationTargets in *. rewrite flat_map_app, D1, D2. reflexivity.
    + unfold successTargets in *. rewrite flat_map_app, U1, U2.
      cbn [combine filter snd]. now destruct (noError r).
    + unfold upValues in *. rewrite flat_map_app, V1, V2. reflexivity.
Qed.

(** C10 (functional correctness).  In a collection cycle, [Collect] makes
    the check of every configured mount point, in order, whatever the
    checks before it returned, and sends for each a status metric and a
    duration metric (and a success metric for those without error); it
    then sends the [up] gauge once, as 1 if and only if no check returned
    an error and as 0 otherwise.  With no mount point configured the
    channel holds [up = 1] and the total duration only. *)
Theorem C10_collect_checks_all_and_reports_health (c : Collector) (w : W) :
  let res := Collect c w in
  let ch := fst (fst res) in
  let mountPoints := MountPoints (metrics.config c) in
  let checks := CheckEach (cycle mountPoints) (findmnt c) w in
  let results := fst (fst checks) in
  (exists v, upValues ch = [v]
             /\ (v = 1 \/ v = 0)
             /\ (v = 1 <-> forall r, In r results -> Error_ r = None))
  /\ List.length results = List.length mountPoints
  /\ statusTargets ch = mountPoints
  /\ durationTargets ch = mountPoints
  /\ successTargets ch
     = map fst (filter (fun p => noError (snd p)) (combine mountPoints results))
  /\ findmnt (snd (fst res)) = snd (fst checks)
  /\ snd res = snd checks
  /\ (mountPoints = [] ->
      ch = [up 1; totalScrapeDuration (time_Since (now w) w)]).
Proof.
  intros res ch mountPoints checks results.
  subst res ch results checks. unfold Collect.
  destruct (collectLoop_adds mountPoints (findmnt c) 1 [] w)
    as (added & E & L & S & D & U & V).
  fold mountPoints. rewrite E. cbn [fst snd app].
  split; [| split; [| split; [| split; [| split; [| split; [| split]]]]]].
  - exists (if forallb noError
                 (fst (fst (CheckEach (cycle mountPoints) (findmnt c) w)))
            then 1 else 0).
    split; [| split].
    + unfold upValues in *. rewrite !flat_map_app, V. reflexivity.
    + destruct (forallb _ _); auto.
    + destruct (forallb _ _) eqn:Hall.
      * split; [| reflexivity]. intros _ r Hr.
        rewrite forallb_forall in Hall. specialize (Hall r Hr).
        unfold noError in Hall. now destruct (Error_ r).
      * split; [discriminate |]. intros Hno.
        assert (forallb noError
                  (fst (fst (CheckEach (cycle mountPoints) (findmnt c) w)))
                = true); [| congruence].
        apply forallb_forall. intros r Hr. unfold noError.
        now rewrite (Hno r Hr).
  - exact L.
  - unfold statusTargets in *. rewrite !flat_map_app, S. cbn.
    now rewrite !app_nil_r.
  - unfold durationTargets in *. rewrite !flat_map_app, D. cbn.
    now rewrite !app_nil_r.
  - unfold successTargets in *. rewrite !flat_map_app, U. cbn.
    now rewrite !app_nil_r.
  - reflexivity.
  - reflexivity.
  - intros Hnil. rewrite Hnil in *. cbn in E. inversion E as [Hadd].
    cbn. reflexivity.
Qed.

End CollectorClaim.

Lemma C10_collect_checks_all_and_reports_health_witness :
  fst (fst (metrics.Collect (testCollector []) world0))
  = [metrics.up 1; metrics.totalScrapeDuration 0].
Proof.
  destruct (C10_collect_checks_all_and_reports_health
              (testCollector []) world0)
    as (_ & _ & _ & _ & _ & _ & _ & Hempty).
  rewrite Hempty; reflexivity.
Defined.

(** * Further properties of the code *)

(** ** The circuit breaker *)

Section BreakerMore.
Context {W : Type} `{Clock W}.
Import reliability.

Lemma onSuccess_closed (cb : CircuitBreaker) (w : W) :
  state cb = StateClosed ->
  state (onSuccess cb w) = StateClosed /\ failures (onSuccess cb w) = 0
  /\ maxFailures (onSuccess cb w) = maxFailures cb.
Proof. intros Hs. unfold onSuccess. cbn. rewrite Hs. auto. Qed.

Lemma succeeding_counting (fn : M W (option error)) (c : Counted W) :
  succeeding fn -> fst (counting fn c) = None.
Proof.
  intros Hf. unfold counting, indexed. specialize (Hf (base c)).
  destruct (fn (base c)) as [o w]. exact Hf.
Qed.

(** Failing calls up to the threshold: the last one opens the breaker. *)
Lemma ExecuteAll_reaches (fns : list (M W (option error)))
  (cb : CircuitBreaker) (c : Counted W) :
  state cb = StateClosed ->
  0 <= failures cb ->
  (1 <= List.length fns)%nat ->
  failures cb + Z.of_nat (List.length fns) = maxFailures cb ->
  maxFailures cb <= maxInt64 ->
  Forall failing fns ->
  let r := ExecuteAll cb (map counting fns) c in
  state (fst r) = StateOpen
  /\ failures (fst r) = maxFailures cb
  /\ lastFailTime (fst r) = now (snd r)
  /\ invocations (snd r) = (invocations c + List.length fns)%nat.
Proof.
  intros Hs H0 H1 Hlen Hmax Hall. cbv zeta.
  destruct fns as [| fn0 fns0] using rev_ind; [simpl in H1; lia |].
  clear IHfns0. rename fns0 into pre, fn0 into fn.
  apply Forall_app in Hall. destruct Hall as [Hpre Hlast].
  inversion Hlast as [| ? ? Hfn _]; subst.
  rewrite length_app in *. cbn [List.length] in *.
  rewrite map_app, ExecuteAll_app.
  destruct (ExecuteAll_below pre cb c)
    as (S1 & S2 & S3 & S4); try assumption; try lia.
  remember (ExecuteAll cb (map counting pre) c) as r eqn:Hr.
  destruct r as [cb1 c1]. cbn [fst snd] in *.
  cbn [map ExecuteAll].
  rewrite Execute_allowed by now apply allowRequest_closed.
  rewrite failing_counting by assumption. cbn [recordResult ret fst snd].
  destruct (onFailure_threshold cb1 (snd (counting fn c1)))
    as (T1 & T2 & T3); try assumption; try lia.
  rewrite invocations_counting, S4, T1, T2, T3.
  repeat split; try reflexivity; lia.
Qed.

End BreakerMore.

Section BreakerExtras.
Context {W : Type} `{Clock W}.
Import reliability.

(** X1.  A breaker as [NewCircuitBreaker] makes it opens at the threshold in
    force: [MaxFailures] when that is positive, 5 when it is zero or
    negative.  After [k] failing calls below that number it is closed with
    [k] failures counted, each operation having run; the call that reaches
    the number opens it. *)
Theorem new_breaker_opens_at_its_threshold
  (config : CircuitBreakerConfig) (fns : list (M W (option error))) (w : W) :
  MaxFailures config <= maxInt64 ->
  Z.of_nat (List.length fns)
    = (if MaxFailures config <=? 0 then 5 else MaxFailures config) ->
  Forall failing fns ->
  let after k := ExecuteAll (NewCircuitBreaker config)
                   (map counting (firstn k fns)) (counted w) in
  (forall k, (k < List.length fns)%nat ->
     state (fst (after k)) = StateClosed
     /\ failures (fst (after k)) = Z.of_nat k
     /\ invocations (snd (after k)) = k)
  /\ state (fst (after (List.length fns))) = StateOpen
  /\ failures (fst (after (List.length fns))) = Z.of_nat (List.length fns)
  /\ invocations (snd (after (List.length fns))) = List.length fns.
Proof.
  intros Hmax Hlen Hall after. subst after. cbv beta.
  set (cb := NewCircuitBreaker config).
  assert (Hm : maxFailures cb = Z.of_nat (List.length fns)).
  { rewrite Hlen. reflexivity. }
  assert (Hm' : maxFailures cb <= maxInt64).
  { rewrite Hm, Hlen. destruct (MaxFailures config <=? 0);
      [unfold maxInt64; lia | assumption]. }
  assert (Hpos : (1 <= List.length fns)%nat).
  { destruct (Z.leb_spec (MaxFailures config) 0); lia. }
  split.
  - intros k Hk.
    assert (Hpre : Forall failing (firstn k fns)).
    { rewrite <- (firstn_skipn k fns) in Hall. apply Forall_app in Hall.
      tauto. }
    assert (Hl : List.length (firstn k fns) = k)
      by (apply firstn_length_le; lia).
    assert (Hf : failures cb = 0) by reflexivity.
    assert (Hs : state cb = StateClosed) by reflexivity.
    destruct (ExecuteAll_below (firstn k fns) cb (counted w) Hs
                ltac:(lia) ltac:(lia) Hm' Hpre)
      as (S1 & S2 & _ & S4).
    rewrite Hl in *. cbn [counted invocations] in S4.
    repeat split; [assumption | lia | lia].
  - rewrite firstn_all.
    assert (Hf : failures cb = 0) by reflexivity.
    assert (Hs : state cb = StateClosed) by reflexivity.
    destruct (ExecuteAll_reaches fns cb (counted w) Hs
                ltac:(lia) Hpos ltac:(lia) Hm' Hall)
      as (S1 & S2 & _ & S4).
    cbn [counted invocations] in S4.
    repeat split; [assumption | lia | assumption].
Qed.

(** X2.  Only consecutive failures open the breaker.  A success recorded
    while the breaker is closed sets the counter back to zero, so failures
    that never come [maxFailures] in a row leave the breaker closed however
    many they are in total: after fewer than [maxFailures] failures, a
    success and again fewer than [maxFailures] failures the breaker is
    closed and counts only the failures since the success. *)
Theorem success_restarts_the_failure_count
  (cb : CircuitBreaker) (fns1 fns2 : list (M W (option error)))
  (ok : M W (option error)) (w : W) :
  state cb = StateClosed ->
  failures cb = 0 ->
  maxFailures cb <= maxInt64 ->
  Z.of_nat (List.length fns1) < maxFailures cb ->
  Z.of_nat (List.length fns2) < maxFailures cb ->
  Forall failing fns1 ->
  Forall failing fns2 ->
  succeeding ok ->
  let r := ExecuteAll cb (map counting (fns1 ++ ok :: fns2)) (counted w) in
  state (fst r) = StateClosed
  /\ failures (fst r) = Z.of_nat (List.length fns2)
  /\ invocations (snd r) = (List.length fns1 + 1 + List.length fns2)%nat.
Proof.
  intros Hs Hf Hmax H1 H2 Hall1 Hall2 Hok. cbv zeta.
  rewrite map_app, ExecuteAll_app.
  destruct (ExecuteAll_below fns1 cb (counted w))
    as (S1 & S2 & S3 & S4); try assumption; try lia.
  destruct (ExecuteAll cb (map counting fns1) (counted w)) as [cb1 c1].
  cbn [fst snd counted invocations] in *.
  cbn [map ExecuteAll].
  rewrite Execute_allowed by now apply allowRequest_closed.
  rewrite succeeding_counting by assumption. cbn [isNil recordResult].
  destruct (onSuccess_closed cb1 (snd (counting ok c1)) S1) as (T1 & T2 & T3).
  destruct (ExecuteAll_below fns2 (onSuccess cb1 (snd (counting ok c1)))
              (snd (counting ok c1)))
    as (U1 & U2 & U3 & U4); try assumption; try lia.
  rewrite invocations_counting in U4.
  repeat split; [assumption | lia | lia].
Qed.

(** X3.  Recovery takes two calls.  On an open breaker whose reset timeout
    has elapsed a successful call leaves the breaker half-open; the call
    that follows, whenever it comes, is let through and decides: its success
    closes the breaker with the counter at zero, its failure opens the
    breaker again, counts one failure and stamps it with the time of that
    failure. *)
Theorem half_open_breaker_follows_the_next_call
  (cb : CircuitBreaker) (fn1 fn2 : M W (option error)) (g : W -> W)
  (c : Counted W) :
  state cb = StateOpen ->
  resetTimeout cb <= time_Since (lastFailTime cb) c ->
  now c <= now (snd (counting fn1 c)) ->
  fst (counting fn1 c) = None ->
  let r1 := Execute cb (counting fn1) c in
  let c2 := meanwhile g (snd r1) in
  let r2 := Execute (snd (fst r1)) (counting fn2) c2 in
  state (snd (fst r1)) = StateHalfOpen
  /\ fst (fst r2) = fst (counting fn2 c2)
  /\ invocations (snd r2) = S (S (invocations c))
  /\ (fst (counting fn2 c2) = None ->
      state (snd (fst r2)) = StateClosed /\ failures (snd (fst r2)) = 0)
  /\ (fst (counting fn2 c2) <> None ->
      state (snd (fst r2)) = StateOpen
      /\ failures (snd (fst r2)) = 1
      /\ lastFailTime (snd (fst r2)) = now (snd r2)).
Proof.
  intros Hs Ht Hmono Hok. cbv zeta.
  destruct (Execute_after_reset_timeout cb fn1 c Hs Ht Hmono)
    as (_ & R2 & _ & R4).
  destruct (R4 ltac:(now rewrite (Execute_allowed cb) by
                       (unfold allowRequest; rewrite Hs; now apply Z.leb_le)))
    as [Hh Hf].
  set (r1 := Execute cb (counting fn1) c) in *.
  set (cb1 := snd (fst r1)) in *.
  set (c2 := meanwhile g (snd r1)).
  assert (Hi : invocations c2 = S (invocations c)) by exact R2.
  rewrite (Execute_allowed cb1) by (unfold allowRequest; now rewrite Hh).
  cbn [fst snd]. rewrite invocations_counting, Hi.
  split; [assumption | split; [reflexivity | split; [reflexivity | split]]].
  - intros Hnil. rewrite Hnil. cbn [isNil recordResult].
    unfold onSuccess, setState. cbn. rewrite Hh. cbn. auto.
  - intros Herr. destruct (fst (counting fn2 c2)); [| congruence].
    cbn [isNil recordResult]. unfold onFailure, setState. cbn.
    rewrite Hh, Hf. cbn. auto.
Qed.

(** X4.  A probe that fails starts the reset timeout again.  On an open
    breaker whose reset timeout has elapsed a failing call runs its
    operation, leaves the breaker open and moves the time of the last
    failure to the time of this one; until [resetTimeout] has passed since
    then every call is refused without running anything. *)
Theorem failed_probe_restarts_the_reset_timeout
  (cb : CircuitBreaker) (fn : M W (option error)) (c : Counted W) :
  state cb = StateOpen ->
  resetTimeout cb <= time_Since (lastFailTime cb) c ->
  fst (counting fn c) <> None ->
  let r := Execute cb (counting fn) c in
  fst (fst r) = fst (counting fn c)
  /\ invocations (snd r) = S (invocations c)
  /\ state (snd (fst r)) = StateOpen
  /\ lastFailTime (snd (fst r)) = now (snd r)
  /\ resetTimeout (snd (fst r)) = resetTimeout cb
  /\ (forall (fn' : M W (option error)) (c' : Counted W),
        time_Since (now (snd r)) c' < resetTimeout cb ->
        Execute (snd (fst r)) (counting fn') c'
        = ((Some errCircuitOpen, snd (fst r)), c')).
Proof.
  intros Hs Ht Herr. cbv zeta.
  rewrite Execute_allowed
    by (unfold allowRequest; rewrite Hs; now apply Z.leb_le).
  cbn [fst snd]. rewrite invocations_counting.
  destruct (fst (counting fn c)) as [e |]; [| congruence].
  cbn [isNil recordResult].
  assert (Hst : state (onFailure cb (snd (counting fn c))) = StateOpen)
    by (unfold onFailure; cbn; now rewrite Hs).
  assert (Hlf : lastFailTime (onFailure cb (snd (counting fn c)))
                = now (snd (counting fn c)))
    by (unfold onFailure; cbn; now rewrite Hs).
  assert (Hrt : resetTimeout (onFailure cb (snd (counting fn c)))
                = resetTimeout cb)
    by (unfold onFailure; cbn; now rewrite Hs).
  repeat split; try assumption.
  intros fn' c' Hlt. apply Execute_refused; [assumption |].
  now rewrite Hlf, Hrt.
Qed.

End BreakerExtras.

Lemma new_breaker_opens_at_its_threshold_witness :
  let config := {| reliability.Name := "test-cb";
                   reliability.MaxFailures := 0;
                   reliability.ResetTimeout := 0;
                   reliability.OnStateChange := false |} in
  let fns := [failOp; failOp; failOp; failOp; failOp] in
  let after k := ExecuteAll (reliability.NewCircuitBreaker config)
                   (map counting (firstn k fns)) (counted world0) in
  reliability.state (fst (after 4%nat)) = reliability.StateClosed
  /\ reliability.state (fst (after 5%nat)) = reliability.StateOpen.
Proof.
  intros config fns after.
  destruct (new_breaker_opens_at_its_threshold config fns world0)
    as (A & B & _).
  - vm_compute. discriminate.
  - reflexivity.
  - repeat constructor; intros w; discriminate.
  - split; [apply (A 4%nat); cbn; lia | exact B].
Defined.

Lemma success_restarts_the_failure_count_witness :
  let r := ExecuteAll (testBreaker 3 (100 * Millisecond))
             (map counting ([failOp; failOp] ++ okOp :: [failOp; failOp]))
             (counted world0) in
  reliability.state (fst r) = reliability.StateClosed
  /\ reliability.failures (fst r) = 2
  /\ invocations (snd r) = 5%nat.
Proof.
  apply (success_restarts_the_failure_count
           (testBreaker 3 (100 * Millisecond)) [failOp; failOp]
           [failOp; failOp] okOp world0).
  - reflexivity.
  - reflexivity.
  - vm_compute. discriminate.
  - cbn. lia.
  - cbn. lia.
  - repeat constructor; intros w; discriminate.
  - repeat constructor; intros w; discriminate.
  - intros w. reflexivity.
Defined.

(** The breaker of the examples once two failures have opened it, and the
    world 100ms later, past its reset timeout of 50ms. *)
Lemma half_open_breaker_follows_the_next_call_witness :
  let cb := fst (ExecuteAll (testBreaker 2 (50 * Millisecond))
                   [failOp; failOp] world0) in
  let c := counted (sleep (100 * Millisecond) world0) in
  let r1 := reliability.Execute cb (counting okOp) c in
  let r2 := reliability.Execute (snd (fst r1)) (counting failOp)
              (meanwhile (fun w => w) (snd r1)) in
  reliability.state (snd (fst r1)) = reliability.StateHalfOpen
  /\ invocations (snd r2) = 2%nat
  /\ reliability.state (snd (fst r2)) = reliability.StateOpen
  /\ reliability.failures (snd (fst r2)) = 1.
Proof.
  intros cb c r1 r2.
  destruct (half_open_breaker_follows_the_next_call cb okOp failOp
              (fun w => w) c)
    as (A & _ & C & _ & E).
  - reflexivity.
  - vm_compute. discriminate.
  - vm_compute. discriminate.
  - reflexivity.
  - destruct E as (E1 & E2 & _); [discriminate |].
    repeat split; assumption.
Defined.

Lemma failed_probe_restarts_the_reset_timeout_witness :
  let cb := fst (ExecuteAll (testBreaker 2 (50 * Millisecond))
                   [failOp; failOp] world0) in
  let c := counted (sleep (100 * Millisecond) world0) in
  let r := reliability.Execute cb (counting failOp) c in
  reliability.state (snd (fst r)) = reliability.StateOpen
  /\ reliability.Execute (snd (fst r)) (counting okOp)
       (meanwhile (sleep (40 * Millisecond)) (snd r))
     = ((Some reliability.errCircuitOpen, snd (fst r)),
        meanwhile (sleep (40 * Millisecond)) (snd r)).
Proof.
  intros cb c r.
  destruct (failed_probe_restarts_the_reset_timeout cb failOp c)
    as (_ & _ & C & _ & _ & F).
  - reflexivity.
  - vm_compute. discriminate.
  - discriminate.
  - split; [exact C |]. apply F. vm_compute. reflexivity.
Defined.

Section BreakerInvariants.
Context {W : Type} `{Clock W}.
Import reliability.

Lemma chainFrom_app (nm : string) (log : list (string * State * State)) :
  forall (s a b : State),
    chainFrom nm s log = Some a ->
    State_eqb a b = false ->
    chainFrom nm s (log ++ [(nm, a, b)]) = Some b.
Proof.
  induction log as [| [[n from] to] log IH]; intros s a b Hc Hab.
  - cbn in *. injection Hc as ->. rewrite String.eqb_refl, State_eqb_refl, Hab.
    reflexivity.
  - cbn [app chainFrom] in *.
    destruct (String.eqb n nm && State_eqb from s && negb (State_eqb from to));
      [| discriminate].
    now apply IH.
Qed.

Lemma keeps_refl (nm : string) (s0 : State) (cb : CircuitBreaker) :
  keeps nm s0 cb cb.
Proof. unfold keeps. tauto. Qed.

Lemma keeps_trans (nm : string) (s0 : State) (a b c : CircuitBreaker) :
  keeps nm s0 a b -> keeps nm s0 b c -> keeps nm s0 a c.
Proof.
  unfold keeps.
  intros (A1 & A2 & A3 & A4 & A5 & A6) (B1 & B2 & B3 & B4 & B5 & B6).
  repeat split; try congruence.
  - intros Hf. rewrite B5 by congruence. auto.
  - intros Ht Hn Hc. apply B6; try congruence. auto.
Qed.

Lemma keeps_setState (nm : string) (s0 : State) (s : State)
  (cb : CircuitBreaker) :
  keeps nm s0 cb (setState s cb).
Proof.
  unfold keeps, setState.
  destruct (State_eqb (state cb) s) eqn:E; cbn; [tauto |].
  repeat split; try reflexivity.
  - intros ->. reflexivity.
  - intros -> <- Hc. now apply chainFrom_app.
Qed.

Lemma keeps_counters (nm : string) (s0 : State) (cb cb' : CircuitBreaker) :
  name cb' = name cb -> maxFailures cb' = maxFailures cb ->
  resetTimeout cb' = resetTimeout cb -> state cb' = state cb ->
  onStateChange cb' = onStateChange cb -> notified cb' = notified cb ->
  keeps nm s0 cb cb'.
Proof. unfold keeps. intros -> -> -> -> -> ->. tauto. Qed.

Lemma keeps_onSuccess (nm : string) (s0 : State) (cb : CircuitBreaker) (w : W) :
  keeps nm s0 cb (onSuccess cb w).
Proof.
  apply keeps_trans with (set_failures 0 cb);
    [now apply keeps_counters |].
  unfold onSuccess. cbv zeta.
  destruct (state (set_failures 0 cb));
    [apply keeps_refl | apply keeps_setState |].
  destruct (_ <=? _); [apply keeps_setState | apply keeps_refl].
Qed.

Lemma keeps_onFailure (nm : string) (s0 : State) (cb : CircuitBreaker) (w : W) :
  keeps nm s0 cb (onFailure cb w).
Proof.
  unfold onFailure. cbv zeta.
  set (cb1 := set_lastFailTime (now w)
                (set_failures (wrap64 (failures cb + 1)) cb)).
  apply keeps_trans with cb1; [now apply keeps_counters |].
  destruct (state cb1);
    [| apply keeps_setState | apply keeps_refl].
  destruct (_ <=? _); [apply keeps_setState | apply keeps_refl].
Qed.

Lemma keeps_call (nm : string) (s0 : State) (c : Call) (cb : CircuitBreaker)
  (w : W) :
  keeps nm s0 cb (fst (call c cb w)).
Proof.
  destruct c as [fn |]; cbn [call].
  - unfold Execute. destruct (negb (allowRequest cb w)); [apply keeps_refl |].
    destruct (fn w) as [e w1]. cbn [fst].
    unfold recordResult. destruct (isNil e);
      [apply keeps_onSuccess | apply keeps_onFailure].
  - cbn [ret fst]. unfold Reset. cbv zeta.
    eapply keeps_trans; [| apply keeps_setState].
    now apply keeps_counters.
Qed.

Lemma keeps_callAll (nm : string) (s0 : State) (calls : list Call) :
  forall (cb : CircuitBreaker) (w : W),
    keeps nm s0 cb (fst (callAll calls cb w)).
Proof.
  induction calls as [| c calls IH]; intros cb w; [apply keeps_refl |].
  cbn [callAll]. pose proof (keeps_call nm s0 c cb w) as Hc.
  destruct (call c cb w) as [cb1 w1]. cbn [fst] in Hc.
  eapply keeps_trans; [exact Hc | apply IH].
Qed.

Lemma counts_call (c : Call) (cb : CircuitBreaker) (w : W) :
  counts cb -> counts (fst (call c cb w)).
Proof.
  unfold counts.
  pose proof (wrap64_id (failures cb + 1)) as Hwrap.
  unfold minInt64, maxInt64 in *.
  intros (Hm & Hc & Hh). destruct c as [fn |]; cbn [call].
  - unfold Execute. destruct (negb (allowRequest cb w));
      [cbn [fst]; tauto |].
    destruct (fn w) as [e w1]. cbn [fst].
    unfold recordResult. destruct (isNil e).
    + unfold onSuccess, setState. cbn.
      destruct (state cb); cbn;
        try destruct (_ <=? _); cbn;
        repeat split; intros; (lia || congruence).
    + unfold onFailure, setState. cbn.
      destruct (state cb) eqn:E; cbn.
      * specialize (Hc eq_refl). rewrite Hwrap by lia.
        destruct (Z.leb_spec (maxFailures cb) (failures cb + 1)); cbn;
          repeat split; intros; (lia || congruence).
      * repeat split; intros; (lia || congruence).
      * repeat split; intros; (lia || congruence).
  - cbn [ret fst]. unfold Reset, setState. cbn.
    destruct (state cb); cbn; repeat split; intros; (lia || congruence).
Qed.

Lemma counts_callAll (calls : list Call) :
  forall (cb : CircuitBreaker) (w : W),
    counts cb -> counts (fst (callAll calls cb w)).
Proof.
  induction calls as [| c calls IH]; intros cb w Hc; [exact Hc |].
  cbn [callAll]. pose proof (counts_call c cb w Hc) as Hc1.
  destruct (call c cb w) as [cb1 w1]. now apply IH.
Qed.

End BreakerInvariants.

Section BreakerSequences.
Context {W : Type} `{Clock W}.
Import reliability.

(** X5.  [Reset] from any state: the breaker is closed, counts no failure,
    has the zero time as the time of its last failure and keeps its
    threshold and reset timeout; a second [Reset] changes nothing; and the
    next [Execute] runs its operation whatever the time is. *)
Theorem Reset_closes_from_any_state
  (cb : CircuitBreaker) (fn : M W (option error)) (c : Counted W) :
  let cb' := Reset cb in
  state cb' = StateClosed
  /\ failures cb' = 0
  /\ lastFailTime cb' = zeroTime
  /\ maxFailures cb' = maxFailures cb
  /\ resetTimeout cb' = resetTimeout cb
  /\ Reset cb' = cb'
  /\ fst (fst (Execute cb' (counting fn) c)) = fst (counting fn c)
  /\ invocations (snd (Execute cb' (counting fn) c)) = S (invocations c).
Proof.
  cbv zeta.
  assert (Hs : state (Reset cb) = StateClosed)
    by (unfold Reset, setState; cbn; destruct (state cb) eqn:E; cbn;
        rewrite ?E; reflexivity).
  assert (Hf : failures (Reset cb) = 0)
    by (unfold Reset, setState; cbn; destruct (state cb) eqn:E; cbn;
        rewrite ?E; reflexivity).
  assert (Ht : lastFailTime (Reset cb) = zeroTime)
    by (unfold Reset, setState; cbn; destruct (state cb) eqn:E; cbn;
        rewrite ?E; reflexivity).
  rewrite Execute_allowed by now apply allowRequest_closed.
  cbn [fst snd]. rewrite invocations_counting.
  repeat split; try assumption;
    try (unfold Reset, setState; cbn; destruct (state cb) eqn:E; cbn;
         rewrite ?E; reflexivity).
Qed.

(** X6.  Under any sequence of [Execute] and [Reset] calls a breaker keeps
    the name, threshold and reset timeout it was made with.  When a callback
    is installed, the callbacks spawned tell the history of the breaker:
    each carries its name and a real change of state, the first starts from
    closed, each starts in the state the one before ended in, and the last
    ends in the current state.  When none is installed, none is spawned. *)
Theorem callbacks_tell_every_change_of_state
  (config : CircuitBreakerConfig) (calls : list Call) (w : W) :
  let cb := NewCircuitBreaker config in
  let cb' := fst (callAll calls cb w) in
  name cb' = Name config
  /\ maxFailures cb' = maxFailures cb
  /\ resetTimeout cb' = resetTimeout cb
  /\ (OnStateChange config = true ->
      chainFrom (Name config) StateClosed (notified cb') = Some (state cb'))
  /\ (OnStateChange config = false -> notified cb' = []).
Proof.
  cbv zeta.
  destruct (keeps_callAll (Name config) StateClosed calls
              (NewCircuitBreaker config) w)
    as (K1 & K2 & K3 & _ & K5 & K6).
  repeat split; try assumption.
  intros Ht. now apply K6.
Qed.

(** X7.  The counter never passes the threshold unnoticed.  Under any
    sequence of calls on a breaker as [NewCircuitBreaker] makes it, the
    threshold is at least 1; whenever the breaker is closed its counter is
    at least 0 and below the threshold; whenever it is half-open its
    counter is 0. *)
Theorem closed_breaker_counts_below_its_threshold
  (config : CircuitBreakerConfig) (calls : list Call) (w : W) :
  MaxFailures config <= maxInt64 ->
  let cb' := fst (callAll calls (NewCircuitBreaker config) w) in
  1 <= maxFailures cb'
  /\ (state cb' = StateClosed -> 0 <= failures cb' < maxFailures cb')
  /\ (state cb' = StateHalfOpen -> failures cb' = 0).
Proof.
  intros Hmax. cbv zeta.
  destruct (counts_callAll calls (NewCircuitBreaker config) w)
    as ((C1 & _) & C2 & C3); [| tauto].
  unfold counts, NewCircuitBreaker. cbn.
  destruct (Z.leb_spec (MaxFailures config) 0);
    repeat split; intros; (unfold maxInt64 in *; lia) || congruence.
Qed.

End BreakerSequences.

Lemma closed_breaker_counts_below_its_threshold_witness :
  let cb' := fst (callAll [CallExecute failOp; CallExecute failOp; CallReset;
                            CallExecute failOp]
                    (testBreaker 2 (50 * Millisecond)) world0) in
  1 <= reliability.maxFailures cb'
  /\ (reliability.state cb' = reliability.StateClosed ->
      0 <= reliability.failures cb' < reliability.maxFailures cb')
  /\ (reliability.state cb' = reliability.StateHalfOpen ->
      reliability.failures cb' = 0).
Proof.
  apply (closed_breaker_counts_below_its_threshold
           {| reliability.Name := "test-cb";
              reliability.MaxFailures := 2;
              reliability.ResetTimeout := 50 * Millisecond;
              reliability.OnStateChange := true |}
           [CallExecute failOp; CallExecute failOp; CallReset;
            CallExecute failOp] world0).
  vm_compute. discriminate.
Defined.

(** ** The retry driver *)

Section RetryMore.
Context {W : Type} `{Waiter W}.
Import reliability.

(** The loop of [Do] entered for attempt [j] with [n >= 1] iterations left,
    when every invocation fails with a retryable error. *)
Lemma DoLoop_exhausts (r : Retry) (ctx : Context)
  (op : nat -> M W (option error)) (P : W -> Prop) (n : nat) :
  forall (j : nat) (lastErr : option error) (c : Counted W),
    Undisturbed ctx op P -> P (base c) ->
    invocations c = j ->
    Z.of_nat (S n) = MaxAttempts (config r) - Z.of_nat j ->
    (forall i w, P w ->
       exists e, fst (op i w) = Some e /\ ShouldRetry (config r) e = true) ->
    let res := DoLoop r ctx (indexed op) (S n) (Z.of_nat j) lastErr c in
    exists e w',
      P w' /\ fst (op (j + n)%nat w') = Some e
      /\ ShouldRetry (config r) e = true
      /\ fst res = Some (errMaxAttempts r (Some e))
      /\ base (snd res) = snd (op (j + n)%nat w')
      /\ invocations (snd res) = S (j + n)
      /\ waits (snd res) = (waits c + n + Nat.min j 1)%nat.
Proof.
  induction n as [| n IH]; intros j lastErr c Hu Hp Hj Hn Hfail; cbv zeta;
    rewrite (DoLoop_iteration r ctx op P) by assumption;
    destruct (waited_counts (Z.of_nat j) c) as [Hi Hw];
    pose proof (waited_keeps ctx op P (Z.of_nat j) c Hu Hp) as Hp';
    rewrite Hi, Hj;
    destruct (Hfail j (base (waited (Z.of_nat j) c)) Hp') as (e & He & Hretry);
    rewrite He, Hretry; cbn [negb].
  - destruct (Z.eqb_spec (Z.of_nat j) (MaxAttempts (config r) - 1)); [| lia].
    exists e, (base (waited (Z.of_nat j) c)).
    rewrite Nat.add_0_r. cbn [fst snd invoked base invocations waits].
    rewrite Hi, Hw, Hj.
    destruct (Z.ltb_spec 0 (Z.of_nat j)); repeat split; auto; lia.
  - destruct (Z.eqb_spec (Z.of_nat j) (MaxAttempts (config r) - 1)); [lia |].
    replace (Z.of_nat j + 1) with (Z.of_nat (S j)) by lia.
    destruct (IH (S j) (Some e) (invoked op (waited (Z.of_nat j) c)))
      as (e' & w' & R1 & R2 & R3 & R4 & R5 & R6 & R7).
    + assumption.
    + cbn [invoked base]. rewrite Hi, Hj. now apply (op_keeps ctx op P Hu).
    + cbn [invoked invocations]. now rewrite Hi, Hj.
    + lia.
    + assumption.
    + exists e', w'. replace (j + S n)%nat with (S j + n)%nat by lia.
      rewrite R4, R5, R6, R7. cbn [invoked waits]. rewrite Hw.
      destruct (Z.ltb_spec 0 (Z.of_nat j)); repeat split; auto; lia.
Qed.

(** What every run of the loop of [Do] comes to, entered for attempt [a]
    as [Do] enters it. *)
Lemma DoLoop_outcome (r : Retry) (ctx : Context)
  (op : nat -> M W (option error)) (n : nat) :
  forall (a : nat) (lastErr : option error) (c : Counted W),
    invocations c = a ->
    waits c = (a - 1)%nat ->
    Z.of_nat n = Z.max 0 (MaxAttempts (config r) - Z.of_nat a) ->
    (a = 0%nat \/ Z.of_nat a < MaxAttempts (config r)) ->
    (lastErr = None <-> a = 0%nat) ->
    let res := DoLoop r ctx (indexed op) n (Z.of_nat a) lastErr c in
    (invocations (snd res) <= a + n)%nat
    /\ ended r ctx (fst res) (invocations (snd res)) (waits (snd res)).
Proof.
  induction n as [| n IH]; intros a lastErr c Hi Hw Hn Ha Hlast; cbv zeta.
  - cbn [DoLoop ret fst snd ended]. split; [lia |]. right. exists lastErr.
    assert (Ha0 : a = 0%nat) by lia.
    split; [reflexivity |]. split; [lia |]. split.
    + intros _. now rewrite Hi.
    + intros e He _. apply Hlast in Ha0. congruence.
  - assert (Hgo : forall c1 : Counted W,
               invocations c1 = a -> waits c1 = (S a - 1)%nat ->
               let res :=
                 (err <- indexed op ;;
                  match err with
                  | None => ret None
                  | Some e =>
                      if negb (ShouldRetry (config r) e)
                      then ret (Some (errMaxAttempts r (Some e)))
                      else if Z.of_nat a =? MaxAttempts (config r) - 1
                      then ret (Some (errMaxAttempts r (Some e)))
                      else DoLoop r ctx (indexed op) n (Z.of_nat a + 1)
                             (Some e)
                  end) c1 in
               (invocations (snd res) <= a + S n)%nat
               /\ ended r ctx (fst res) (invocations (snd res))
                    (waits (snd res))).
    { intros c1 Hi1 Hw1 res. unfold bind at 1 in (value of res).
      unfold indexed at 1 in (value of res). subst res.
      destruct (op (invocations c1) (base c1)) as [[e |] w2]; cbn [fst snd].
      2:{ cbn [ret fst snd invocations waits ended]. lia. }
      destruct (ShouldRetry (config r) e) eqn:Hretry; cbn [negb].
      2:{ cbn [ret fst snd invocations waits ended]. split; [lia |]. right.
          exists (Some e). repeat split; try lia; try discriminate.
          intros e0 [= <-]. congruence. }
      destruct (Z.eqb_spec (Z.of_nat a) (MaxAttempts (config r) - 1)).
      { cbn [ret fst snd invocations waits ended]. split; [lia |]. right.
        exists (Some e). repeat split; try lia; try discriminate. }
      replace (Z.of_nat a + 1) with (Z.of_nat (S a)) by lia.
      destruct (IH (S a) (Some e)
                  {| base := w2; invocations := S (invocations c1);
                     waits := waits c1 |})
        as [I1 I2]; cbn [invocations waits]; try lia.
      { split; [discriminate | lia]. }
      split; [lia | exact I2]. }
    remember (DoLoop r ctx (indexed op) (S n) (Z.of_nat a) lastErr c)
      as res eqn:Hres.
    cbn [DoLoop] in Hres. unfold bind at 1 in Hres.
    destruct (Z.ltb_spec 0 (Z.of_nat a)) as [Hpos | Hzero].
    + (* a wait comes first *)
      unfold backoffWait, bind at 1, ret at 1 in Hres.
      unfold selectAfterOrDone at 1, Waiter_Counted in Hres.
      destruct (selectAfterOrDone (Z.of_nat a) (base c)) as [o w1].
      assert (Hnext : (S (waits c) = S a - 1)%nat) by lia.
      destruct ctx; cbv beta iota in Hres; [subst res; now apply Hgo |].
      destruct o as [cause |]; cbv beta iota in Hres;
        [| subst res; now apply Hgo].
      subst res.
      cbn [ret fst snd invocations waits ended]. split; [lia |]. left.
      exists cause. repeat split; lia.
    + (* the first attempt *)
      unfold ret at 1 in Hres. cbv beta iota in Hres. subst res.
      apply Hgo; lia.
Qed.

End RetryMore.

Section RetryExtras.
Context {W : Type} `{Waiter W}.
Import reliability.

(** X8.  Exhaustion.  For [MaxAttempts = n >= 1], when every invocation of
    the operation fails with an error the predicate retries and the context
    is not done during the waits, [Do] invokes the operation exactly [n]
    times, waits [n - 1] times, and returns the max-attempts error that
    wraps the error of the last invocation. *)
Theorem Do_gives_up_after_max_attempts
  (r : Retry) (ctx : Context) (op : nat -> M W (option error))
  (P : W -> Prop) (w : W) :
  1 <= MaxAttempts (config r) ->
  (forall i w, P w ->
     exists e, fst (op i w) = Some e /\ ShouldRetry (config r) e = true) ->
  Undisturbed ctx op P ->
  P w ->
  let res := Do r ctx (indexed op) (counted w) in
  let last := (Z.to_nat (MaxAttempts (config r)) - 1)%nat in
  exists e w',
    fst (op last w') = Some e
    /\ fst res = Some (errMaxAttempts r (Some e))
    /\ base (snd res) = snd (op last w')
    /\ Z.of_nat (invocations (snd res)) = MaxAttempts (config r)
    /\ Z.of_nat (waits (snd res)) = MaxAttempts (config r) - 1.
Proof.
  intros Hmax Hfail Hu Hp. cbv zeta. unfold Do.
  destruct (Z.to_nat (MaxAttempts (config r))) as [| n] eqn:Hn; [lia |].
  destruct (DoLoop_exhausts r ctx op P n 0 None (counted w))
    as (e & w' & _ & R2 & _ & R4 & R5 & R6 & R7);
    try assumption; try reflexivity; try lia.
  change (Z.of_nat 0) with 0 in *. cbn [Nat.add] in *.
  exists e, w'. replace (S n - 1)%nat with n by lia.
  rewrite R4, R5, R6, R7. cbn [counted waits].
  repeat split; auto; lia.
Qed.

(** X9.  Whatever the operation, the context and the world, [Do] invokes
    the operation at most [MaxAttempts] times (never, when that is zero or
    negative) and ends in one of three ways.  With nil: the operation was
    invoked at least once and a wait preceded every invocation but the
    first.  With the retry-cancelled error, under a context that can be
    done only: the operation was not invoked after the wait that was cut.
    With the max-attempts error: it wraps nil only if nothing was invoked,
    and if it wraps an error the predicate retries, all [MaxAttempts]
    invocations were made. *)
Theorem Do_stops_within_max_attempts
  (r : Retry) (ctx : Context) (op : nat -> M W (option error)) (w : W) :
  let res := Do r ctx (indexed op) (counted w) in
  let inv := invocations (snd res) in
  let wts := waits (snd res) in
  (inv <= Z.to_nat (MaxAttempts (config r)))%nat
  /\ match fst res with
     | None => (1 <= inv)%nat /\ wts = (inv - 1)%nat
     | Some err =>
         (exists cause,
             ctx = WithCancel /\ err = errRetryCancelled cause
             /\ (1 <= inv)%nat /\ wts = inv)
         \/ (exists last,
               err = errMaxAttempts r last
               /\ wts = (inv - 1)%nat
               /\ (last = None -> inv = 0%nat)
               /\ (forall e, last = Some e ->
                     ShouldRetry (config r) e = true ->
                     Z.of_nat inv = MaxAttempts (config r)))
     end.
Proof.
  cbv zeta. unfold Do.
  assert (Hn : Z.of_nat (Z.to_nat (MaxAttempts (config r)))
               = Z.max 0 (MaxAttempts (config r) - Z.of_nat 0)) by lia.
  destruct (DoLoop_outcome r ctx op (Z.to_nat (MaxAttempts (config r)))
              0 None (counted w) eq_refl eq_refl Hn (or_introl eq_refl)
              (conj (fun _ => eq_refl) (fun _ => eq_refl)))
    as [O1 O2].
  split; [exact O1 | exact O2].
Qed.

End RetryExtras.

Lemma Do_gives_up_after_max_attempts_witness :
  let res := reliability.Do (testRetry 3) WithCancel
               (indexed (fun _ => failOp)) (counted world0) in
  exists e w',
    fst (failOp w') = Some e
    /\ fst res = Some (reliability.errMaxAttempts (testRetry 3) (Some e))
    /\ base (snd res) = snd (failOp w')
    /\ Z.of_nat (invocations (snd res)) = 3
    /\ Z.of_nat (waits (snd res)) = 3 - 1.
Proof.
  apply (Do_gives_up_after_max_attempts
           (testRetry 3) WithCancel (fun _ => failOp)
           (fun w => simDone w = false) world0).
  - vm_compute. discriminate.
  - intros i w _. exists (errorString "test error"). split; reflexivity.
  - split.
    + intros i w Hw. exact Hw.
    + intros a w Hw. unfold selectAfterOrDone, Waiter_Sim. now rewrite Hw.
    + right. intros a w Hw. unfold selectAfterOrDone, Waiter_Sim.
      now rewrite Hw.
  - reflexivity.
Defined.

Section RetryWithValue.
Context {W : Type} `{Waiter W} {T : Type}.
Import reliability.

(** X10.  [DoWithValue] retries as [Do] does: for any operation, context and
    world it returns the error [Do] returns for the same operation with its
    value dropped, and leaves the world as [Do] leaves it, so it invokes the
    operation and waits exactly as often. *)
Theorem DoWithValue_retries_as_Do
  (r : Retry) (ctx : Context) (fn : M W (T * option error)) (zero : T)
  (w : W) :
  snd (fst (DoWithValue r ctx fn zero w)) = fst (Do r ctx (withoutValue fn) w)
  /\ snd (DoWithValue r ctx fn zero w) = snd (Do r ctx (withoutValue fn) w).
Proof.
  unfold DoWithValue, Do.
  generalize (Z.to_nat (MaxAttempts (config r))) as n.
  generalize 0 as a. generalize (@None error) as lastErr.
  generalize zero as result. revert w.
  intros w result lastErr a n. revert a result lastErr w.
  induction n as [| n IH]; intros a result lastErr w; [split; reflexivity |].
  cbn [DoWithValueLoop DoLoop]. unfold bind at 1 3 5 7.
  destruct ((if 0 <? a then backoffWait ctx a else ret None) w)
    as [[cause |] w1]; [split; reflexivity |].
  unfold bind, withoutValue.
  destruct (fn w1) as [[v [e |]] w2]; cbn [fst snd]; [| split; reflexivity].
  destruct (negb (ShouldRetry (config r) e)); [split; reflexivity |].
  destruct (a =? MaxAttempts (config r) - 1); [split; reflexivity |].
  apply IH.
Qed.

Lemma DoWithValueLoop_value (r : Retry) (ctx : Context)
  (fn : M W (T * option error)) (n : nat) :
  forall (a : Z) (result : T) (lastErr : option error) (w : W)
         (noted : option T),
    (forall v, noted = Some v -> v = result) ->
    let res := DoWithValueLoop r ctx (recording fn) n a result lastErr
                 (w, noted) in
    match snd (snd res) with
    | Some v => fst (fst res) = v
    | None => noted = None /\ fst (fst res) = result
    end
    /\ (snd (fst res) = None -> snd (snd res) <> None).
Proof.
  induction n as [| n IH]; intros a result lastErr w noted Hnoted; cbv zeta.
  - cbn [DoWithValueLoop ret fst snd]. split; [| discriminate].
    destruct noted as [v |]; [symmetry; now apply Hnoted | now split].
  - remember (DoWithValueLoop r ctx (recording fn) (S n) a result lastErr
                (w, noted)) as res eqn:Hres.
    cbn [DoWithValueLoop] in Hres. unfold bind at 1 in Hres.
    assert (Hwait : exists c w1,
               (if 0 <? a then backoffWait ctx a else ret None) (w, noted)
               = (c, (w1, noted))).
    { destruct (0 <? a); [| now exists None, w].
      unfold backoffWait, bind, ret.
      unfold selectAfterOrDone at 1, Waiter_frame. cbn [fst snd].
      destruct (selectAfterOrDone a w) as [c w1].
      now exists (match ctx with Background => None | WithCancel => c end),
        w1. }
    destruct Hwait as (c & w1 & Hwait). rewrite Hwait in Hres.
    destruct c as [cause |].
    + subst res. cbn [ret fst snd]. split; [| discriminate].
      destruct noted as [v |]; [symmetry; now apply Hnoted | now split].
    + unfold bind at 1 in Hres. unfold recording at 1 in Hres.
      cbn [fst snd] in Hres.
      destruct (fn w1) as [[v [e |]] w2]; cbn [fst snd] in Hres.
      2:{ subst res. cbn [ret fst snd]. split; [reflexivity | discriminate]. }
      destruct (negb (ShouldRetry (config r) e)).
      { subst res. cbn [ret fst snd]. split; [reflexivity | discriminate]. }
      destruct (a =? MaxAttempts (config r) - 1).
      { subst res. cbn [ret fst snd]. split; [reflexivity | discriminate]. }
      subst res.
      destruct (IH (a + 1) v (Some e) w2 (Some v)) as [I1 I2];
        [now intros v0 [= <-] |].
      split; [| exact I2].
      destruct (snd (snd (DoWithValueLoop r ctx (recording fn) n (a + 1) v
                            (Some e) (w2, Some v))));
        [exact I1 | destruct I1; discriminate].
Qed.

(** X11.  The value [DoWithValue] returns is the one the last invocation
    of the operation returned, whether that invocation succeeded or failed;
    it is the zero value only if the operation was never invoked.  When the
    error is nil the operation has been invoked. *)
Theorem DoWithValue_returns_the_last_value
  (r : Retry) (ctx : Context) (fn : M W (T * option error)) (zero : T)
  (w : W) :
  let res := DoWithValue r ctx (recording fn) zero (w, None) in
  fst (fst res) = match snd (snd res) with
                  | Some v => v
                  | None => zero
                  end
  /\ (snd (fst res) = None -> snd (snd res) <> None).
Proof.
  cbv zeta. unfold DoWithValue.
  destruct (DoWithValueLoop_value r ctx fn
              (Z.to_nat (MaxAttempts (config r))) 0 zero None w None)
    as [V1 V2]; [discriminate |].
  split; [| exact V2].
  destruct (snd (snd (DoWithValueLoop r ctx (recording fn)
                        (Z.to_nat (MaxAttempts (config r))) 0 zero None
                        (w, None))));
    [exact V1 | now destruct V1].
Qed.

End RetryWithValue.

(** ** The findmnt wrapper *)

(** The loop of [Do] over any operation: a property [I] of the world that
    failed invocations and waits keep holds when [Do] returns an error, which
    is then one of its own two; a property [G] that a successful invocation
    establishes holds when [Do] returns nil. *)
Lemma DoLoop_ends {W} `{Waiter W} (I G : W -> Prop) (r : reliability.Retry)
  (ctx : Context) (fn : M W (option error)) :
  (forall w, I w -> match fst (fn w) with
                    | None => G (snd (fn w))
                    | Some _ => I (snd (fn w))
                    end) ->
  (forall a w, I w -> I (snd (selectAfterOrDone a w))) ->
  forall (n : nat) (a : Z) (lastErr : option error) (w : W),
    I w ->
    match fst (reliability.DoLoop r ctx fn n a lastErr w) with
    | None => G (snd (reliability.DoLoop r ctx fn n a lastErr w))
    | Some e =>
        I (snd (reliability.DoLoop r ctx fn n a lastErr w))
        /\ ((exists cause, e = reliability.errRetryCancelled cause)
            \/ (exists last, e = reliability.errMaxAttempts r last))
    end.
Proof.
  intros Hfn Hwait.
  induction n as [| n IH]; intros a lastErr w Hw.
  - cbn. split; [assumption | right; now exists lastErr].
  - remember (reliability.DoLoop r ctx fn (S n) a lastErr w) as res eqn:Hres.
    cbn [reliability.DoLoop] in Hres. unfold bind at 1 in Hres.
    assert (Hw1 : I (snd ((if 0 <? a then reliability.backoffWait ctx a
                           else ret None) w))).
    { destruct (0 <? a); [| exact Hw].
      unfold reliability.backoffWait, bind, ret.
      specialize (Hwait a w Hw).
      now destruct (selectAfterOrDone a w). }
    destruct ((if 0 <? a then reliability.backoffWait ctx a else ret None) w)
      as [[cause |] w1]; cbn [snd] in Hw1.
    + subst res. cbn. split; [assumption | left; now exists cause].
    + unfold bind at 1 in Hres. specialize (Hfn w1 Hw1).
      destruct (fn w1) as [[e |] w2]; cbn [fst snd] in Hfn.
      2:{ subst res. exact Hfn. }
      destruct (negb (reliability.ShouldRetry (reliability.config r) e)).
      { subst res. cbn. split; [assumption | right; now exists (Some e)]. }
      destruct (a =? reliability.MaxAttempts (reliability.config r) - 1).
      { subst res. cbn. split; [assumption | right; now exists (Some e)]. }
      subst res. now apply IH.
Qed.

Section WrapperMore.
Context {W : Type} `{Clock W} `{Waiter W} `{Findmnt W} `{DurationFormat}.
Import reliability system.

Lemma parseOutput_fresh (out mountPoint : string) :
  match fst (parseOutput out (fresh mountPoint)) with
  | None => settled mountPoint (snd (parseOutput out (fresh mountPoint)))
  | Some _ => snd (parseOutput out (fresh mountPoint)) = fresh mountPoint
  end.
Proof.
  unfold parseOutput.
  destruct (String.length (strings.TrimSpace out) =? 0)%nat.
  { cbn. unfold settled. cbn. auto 10. }
  unfold bufio.NewScanner. destruct out as [| c t].
  { cbn. unfold settled. cbn. auto 10. }
  destruct (bufio.MaxScanTokenSize <=? _);
    cbn [bufio.Scan bufio.Err bufio.Text]; [reflexivity |].
  cbn [fst snd].
  destruct (negb (String.eqb _ "")).
  - unfold fresh. rewrite assignFields_fresh by apply Split_not_nil.
    unfold settled. cbn. auto.
  - unfold settled. cbn. auto 10.
Qed.

(** One run of the command, on a result not settled yet: an error leaves
    the result as it was, no error settles it. *)
Lemma findmntOnce_frame (f : FindmntWrapper) (ctx : Context)
  (mountPoint mp : string) (w : W) (fr : Frame) :
  frResult fr = fresh mp ->
  let res := findmntOnce f ctx mountPoint (w, fr) in
  frStats (snd (snd res)) = incr_retryAttempts (frStats fr)
  /\ match fst res with
     | None => settled mp (frResult (snd (snd res)))
     | Some _ => frResult (snd (snd res)) = fresh mp
     end.
Proof.
  intros Hfr. cbv zeta. unfold findmntOnce.
  destruct (runFindmnt ctx (timeout f) mountPoint w) as [o w1].
  rewrite Hfr.
  destruct (cmdErr o) as [err |].
  - assert (Hnot : settled mp (set_Status MountStatusNotMounted (fresh mp)))
      by (unfold settled; cbn; auto 10).
    destruct (ctxErr o) as [[] |];
      destruct err as [| | | [| [| |] |] | |]; cbn; auto.
  - pose proof (parseOutput_fresh (output o) mp) as Hp.
    destruct (parseOutput (output o) (fresh mp)) as [e r]. cbn [fst snd] in *.
    split; [reflexivity | exact Hp].
Qed.

(** No error of [Do] reads as the error of a breaker that refuses. *)
Lemma Do_error_text {W'} `{Waiter W'} (r : Retry) (ctx : Context)
  (fn : M W' (option error)) (w : W') (e : error) :
  fst (Do r ctx fn w) = Some e ->
  String.eqb (Error e) "circuit breaker is open" = false
  /\ e <> errDisabled.
Proof.
  intros He.
  pose proof (DoLoop_ends (fun _ => True) (fun _ => True) r ctx fn
                ltac:(intros; now destruct (fst (fn _)))
                ltac:(intros; exact I)
                (Z.to_nat (MaxAttempts (config r))) 0 None w I) as Hd.
  unfold Do in He. rewrite He in Hd.
  destruct Hd as [_ [[cause ->] | [last ->]]]; split;
    try reflexivity; discriminate.
Qed.

(** [CheckMountPoint] with a breaker that is not open, in terms of the
    retry of the command: the result and its error are those the retry
    left, the breaker has recorded the outcome once, and one of the two
    counters of outcomes has moved. *)
Lemma CheckMountPoint_run (f : FindmntWrapper) (ctx : Context)
  (mountPoint : string) (w : W) :
  state (circuitBreaker f) <> StateOpen ->
  let d := executeFindmnt f ctx mountPoint
             (w, {| frStats := incr_totalCalls (stats f);
                    frResult := fresh mountPoint |}) in
  CheckMountPoint f ctx mountPoint w =
    ((match fst d with
      | Some e => set_Error (Some e) (frResult (snd (snd d)))
      | None => frResult (snd (snd d))
      end,
      {| timeout := timeout f;
         circuitBreaker :=
           recordResult (circuitBreaker f) (isNil (fst d)) (fst (snd d));
         retry := retry f;
         stats := (if isNil (fst d) then incr_successfulCalls
                   else incr_failedCalls) (frStats (snd (snd d))) |}),
     fst (snd d)).
Proof.
  intros Hs d. unfold CheckMountPoint.
  assert (Hopen : IsOpen (circuitBreaker
                            (with_stats (incr_totalCalls (stats f)) f))
                  = false).
  { unfold IsOpen. cbn.
    destruct (state (circuitBreaker f)) eqn:E; cbn; congruence. }
  rewrite Hopen. cbn [with_stats circuitBreaker stats].
  rewrite Execute_allowed.
  2:{ unfold allowRequest.
      destruct (state (circuitBreaker f)) eqn:E; congruence. }
  change (executeFindmnt (with_stats (incr_totalCalls (stats f)) f))
    with (executeFindmnt f).
  fold (fresh mountPoint). fold d.
  pose proof (Do_error_text (retry f) ctx (findmntOnce f ctx mountPoint)
                (w, {| frStats := incr_totalCalls (stats f);
                       frResult := fresh mountPoint |})) as Htext.
  fold (executeFindmnt f ctx mountPoint) in Htext. fold d in Htext.
  destruct d as [[e |] [w1 fr1]]; cbn [fst snd isNil] in *.
  - destruct (Htext e eq_refl) as [-> _]. reflexivity.
  - reflexivity.
Qed.

End WrapperMore.

(** A wait leaves the frame alone. *)
Lemma wait_frame {W S} `{Waiter W} (a : Z) (w : W) (s : S) :
  snd (selectAfterOrDone a (w, s)) = (snd (selectAfterOrDone a w), s).
Proof.
  unfold selectAfterOrDone at 1, Waiter_frame. cbn [fst snd].
  now destruct (selectAfterOrDone a w).
Qed.

Section WrapperFrames.
Context {W : Type} `{Clock W} `{Waiter W} `{Findmnt W} `{DurationFormat}.
Import reliability system.

(** The result the retry of the command leaves in the frame. *)
Lemma executeFindmnt_frame (f : FindmntWrapper) (ctx : Context)
  (mountPoint : string) (w : W) (st : Stats) :
  let d := executeFindmnt f ctx mountPoint
             (w, {| frStats := st; frResult := fresh mountPoint |}) in
  match fst d with
  | None => settled mountPoint (frResult (snd (snd d)))
  | Some _ => frResult (snd (snd d)) = fresh mountPoint
  end.
Proof.
  cbv zeta. unfold executeFindmnt, Do.
  pose proof (DoLoop_ends
                (fun p : W * Frame => frResult (snd p) = fresh mountPoint)
                (fun p : W * Frame => settled mountPoint (frResult (snd p)))
                (retry f) ctx (findmntOnce f ctx mountPoint)) as Hd.
  specialize (Hd ltac:(intros [w0 fr0] Hfr;
                       apply (findmntOnce_frame f ctx mountPoint mountPoint
                                w0 fr0 Hfr))).
  specialize (Hd ltac:(intros a [w0 fr0] Hfr; now rewrite wait_frame)).
  specialize (Hd (Z.to_nat (MaxAttempts (config (retry f)))) 0 None
                (w, {| frStats := st; frResult := fresh mountPoint |})
                eq_refl).
  destruct (fst (DoLoop _ _ _ _ _ _ _)); [exact (proj1 Hd) | exact Hd].
Qed.

(** The breaker records what the check reports. *)
Lemma CheckMountPoint_records (f : FindmntWrapper) (ctx : Context)
  (mountPoint : string) (w : W) :
  state (circuitBreaker f) <> StateOpen ->
  let res := CheckMountPoint f ctx mountPoint w in
  circuitBreaker (snd (fst res))
  = recordResult (circuitBreaker f) (noError (fst (fst res))) (snd res)
  /\ Error_ (fst (fst res)) <> Some errDisabled
  /\ timeout (snd (fst res)) = timeout f
  /\ retry (snd (fst res)) = retry f.
Proof.
  intros Hs. cbv zeta. rewrite CheckMountPoint_run by assumption.
  pose proof (executeFindmnt_frame f ctx mountPoint w
                (incr_totalCalls (stats f))) as Hfr.
  pose proof (Do_error_text (retry f) ctx (findmntOnce f ctx mountPoint)
                (w, {| frStats := incr_totalCalls (stats f);
                       frResult := fresh mountPoint |})) as Htext.
  fold (executeFindmnt f ctx mountPoint) in Htext.
  cbv zeta in Hfr.
  destruct (executeFindmnt f ctx mountPoint _) as [[e |] [w1 fr1]];
    cbn [fst snd isNil circuitBreaker timeout retry noError] in *.
  - destruct (Htext e eq_refl) as [_ Hne].
    repeat split; try reflexivity. cbn. congruence.
  - destruct Hfr as (_ & He & _). unfold noError. rewrite He.
    repeat split; try reflexivity. discriminate.
Qed.

End WrapperFrames.

Section WrapperExtras.
Context {W : Type} `{Clock W} `{Waiter W} `{Findmnt W} `{DurationFormat}.
Import reliability system.

(** The shape of every result of [CheckMountPoint]. *)
Lemma CheckMountPoint_shape
  (f : FindmntWrapper) (ctx : Context) (mountPoint : string) (w : W) :
  let r := fst (fst (CheckMountPoint f ctx mountPoint w)) in
  MountPoint r = mountPoint
  /\ (Error_ r <> None -> Status r = MountStatusUnknown)
  /\ (Status r <> MountStatusMounted ->
      Target r = "" /\ FSType r = "" /\ Options r = "" /\ Source r = "").
Proof.
  cbv zeta.
  assert (Hcases : state (circuitBreaker f) = StateOpen
                   \/ state (circuitBreaker f) <> StateOpen)
    by (destruct (state (circuitBreaker f)); auto; right; discriminate).
  destruct Hcases as [Hs | Hs].
  - rewrite CheckMountPoint_open by assumption. cbn. auto 10.
  - rewrite CheckMountPoint_run by assumption.
    pose proof (executeFindmnt_frame f ctx mountPoint w
                  (incr_totalCalls (stats f))) as Hfr.
    cbv zeta in Hfr.
    destruct (executeFindmnt f ctx mountPoint _) as [[e |] [w1 fr1]];
      cbn [fst snd] in *.
    + rewrite Hfr. cbn. auto 10.
    + destruct Hfr as (Hm & He & [Hst | Hempty]);
        (split; [exact Hm |]); (split; [congruence |]); intros Hn;
        [congruence | exact Hempty].
Qed.

(** X12.  What [CheckMountPoint] returns is consistent, whatever the
    wrapper, the context, the command and the number of attempts: the
    result carries the mount point asked for; a result with an error has
    the status unknown; and the attributes [Target], [FSType], [Options]
    and [Source] are set only in a result with the status mounted, which
    therefore has no error. *)
Theorem CheckMountPoint_result_is_consistent
  (f : FindmntWrapper) (ctx : Context) (mountPoint : string) (w : W) :
  let r := fst (fst (CheckMountPoint f ctx mountPoint w)) in
  MountPoint r = mountPoint
  /\ (Error_ r <> None -> Status r = MountStatusUnknown)
  /\ (Status r <> MountStatusMounted ->
      Target r = "" /\ FSType r = "" /\ Options r = "" /\ Source r = "").
Proof.
  cbv zeta.
  assert (Hcases : state (circuitBreaker f) = StateOpen
                   \/ state (circuitBreaker f) <> StateOpen)
    by (destruct (state (circuitBreaker f)); auto; right; discriminate).
  destruct Hcases as [Hs | Hs].
  - rewrite CheckMountPoint_open by assumption. cbn. auto 10.
  - rewrite CheckMountPoint_run by assumption.
    pose proof (executeFindmnt_frame f ctx mountPoint w
                  (incr_totalCalls (stats f))) as Hfr.
    cbv zeta in Hfr.
    destruct (executeFindmnt f ctx mountPoint _) as [[e |] [w1 fr1]];
      cbn [fst snd] in *.
    + rewrite Hfr. cbn. auto 10.
    + destruct Hfr as (Hm & He & [Hst | Hempty]);
        (split; [exact Hm |]); (split; [congruence |]); intros Hn;
        [congruence | exact Hempty].
Qed.

(** X13.  One check, one record.  With the breaker open [CheckMountPoint]
    reports the circuit-open error and leaves breaker and world alone.
    Otherwise the breaker records the outcome of the check exactly once,
    however many attempts the retry made: a success if the result has no
    error, a failure if it has one, at the time the retry ended; and the
    error reported is never the circuit-open error. *)
Theorem breaker_records_each_check_once
  (f : FindmntWrapper) (ctx : Context) (mountPoint : string) (w : W) :
  let res := CheckMountPoint f ctx mountPoint w in
  (state (circuitBreaker f) = StateOpen ->
   Error_ (fst (fst res)) = Some errDisabled
   /\ circuitBreaker (snd (fst res)) = circuitBreaker f
   /\ snd res = w)
  /\ (state (circuitBreaker f) <> StateOpen ->
      Error_ (fst (fst res)) <> Some errDisabled
      /\ circuitBreaker (snd (fst res))
         = recordResult (circuitBreaker f) (noError (fst (fst res)))
             (snd res)).
Proof.
  cbv zeta. split; intros Hs.
  - rewrite CheckMountPoint_open by assumption. cbn. auto.
  - destruct (CheckMountPoint_records f ctx mountPoint w Hs)
      as (R1 & R2 & _).
    split; assumption.
Qed.

End WrapperExtras.

Section WrapperCounters.
Context {W : Type} `{Clock W} `{Waiter W} `{Findmnt W} `{DurationFormat}.
Import reliability system.

Lemma findmntOnce_counts (f : FindmntWrapper) (ctx : Context)
  (mountPoint : string) (c : Counted W) (fr : Frame) :
  let res := findmntOnce f ctx mountPoint (c, fr) in
  invocations (fst (snd res)) = S (invocations c)
  /\ frStats (snd (snd res)) = incr_retryAttempts (frStats fr).
Proof.
  cbv zeta.
  remember (findmntOnce f ctx mountPoint (c, fr)) as res eqn:Hres.
  unfold findmntOnce in Hres.
  unfold runFindmnt at 1, Findmnt_Counted in Hres.
  destruct (runFindmnt ctx (timeout f) mountPoint (base c)) as [o w1].
  destruct (cmdErr o) as [err |].
  - destruct (ctxErr o) as [[] |];
      destruct err as [| | | [| [| |] |] | |]; subst res; cbn; auto.
  - destruct (parseOutput (output o) (frResult fr)) as [e r].
    subst res. cbn. auto.
Qed.

(** The counters in the frame against the runs of the command. *)
Lemma executeFindmnt_counts (f : FindmntWrapper) (ctx : Context)
  (mountPoint : string) (c : Counted W) (st : Stats) (result : FindmntResult) :
  let d := executeFindmnt f ctx mountPoint
             (c, {| frStats := st; frResult := result |}) in
  (invocations c <= invocations (fst (snd d)))%nat
  /\ totalCalls (frStats (snd (snd d))) = totalCalls st
  /\ successfulCalls (frStats (snd (snd d))) = successfulCalls st
  /\ failedCalls (frStats (snd (snd d))) = failedCalls st
  /\ circuitBreakerTrips (frStats (snd (snd d))) = circuitBreakerTrips st
  /\ retryAttempts (frStats (snd (snd d)))
     = Nat.iter (invocations (fst (snd d)) - invocations c)
         (fun z => wrap64 (z + 1)) (retryAttempts st).
Proof.
  cbv zeta. unfold executeFindmnt, Do.
  set (J := fun p : Counted W * Frame =>
              (invocations c <= invocations (fst p))%nat
              /\ totalCalls (frStats (snd p)) = totalCalls st
              /\ successfulCalls (frStats (snd p)) = successfulCalls st
              /\ failedCalls (frStats (snd p)) = failedCalls st
              /\ circuitBreakerTrips (frStats (snd p)) = circuitBreakerTrips st
              /\ retryAttempts (frStats (snd p))
                 = Nat.iter (invocations (fst p) - invocations c)
                     (fun z => wrap64 (z + 1)) (retryAttempts st)).
  assert (Hfn : forall p, J p ->
            match fst (findmntOnce f ctx mountPoint p) with
            | None => J (snd (findmntOnce f ctx mountPoint p))
            | Some _ => J (snd (findmntOnce f ctx mountPoint p))
            end).
  { intros [c1 fr1] (J1 & J2 & J3 & J4 & J5 & J6).
    destruct (findmntOnce_counts f ctx mountPoint c1 fr1) as [Hi Hst].
    assert (J (snd (findmntOnce f ctx mountPoint (c1, fr1)))).
    { unfold J. rewrite Hi, Hst. cbn [fst snd] in *.
      cbn [incr_retryAttempts totalCalls successfulCalls failedCalls
           circuitBreakerTrips retryAttempts].
      replace (S (invocations c1) - invocations c)%nat
        with (S (invocations c1 - invocations c)) by lia.
      cbn [Nat.iter]. rewrite J6. repeat split; auto; lia. }
    now destruct (fst (findmntOnce f ctx mountPoint (c1, fr1))). }
  assert (Hwait : forall a p, J p -> J (snd (selectAfterOrDone a p))).
  { intros a [c1 fr1] HJ. rewrite wait_frame. unfold J in *. cbn [fst snd] in *.
    unfold selectAfterOrDone, Waiter_Counted.
    destruct (selectAfterOrDone a (base c1)). exact HJ. }
  pose proof (DoLoop_ends J J (retry f) ctx (findmntOnce f ctx mountPoint)
                Hfn Hwait (Z.to_nat (MaxAttempts (config (retry f)))) 0 None
                (c, {| frStats := st; frResult := result |})) as Hd.
  assert (H0' : J (c, {| frStats := st; frResult := result |})).
  { unfold J. cbn [fst snd frStats]. rewrite Nat.sub_diag. cbn.
    repeat split; auto. }
  specialize (Hd H0').
  destruct (fst (DoLoop _ _ _ _ _ _ _)); [exact (proj1 Hd) | exact Hd].
Qed.

(** X14.  The counters of the wrapper after one [CheckMountPoint], each
    increment wrapping as an int64 does.  [totalCalls] has moved by one;
    of [successfulCalls] and [failedCalls], the one that matches the
    result has moved by one and the other has not, a check refused by the
    open breaker counting as failed; [retryAttempts] has moved by one for
    every run of the command, the first of a check included;
    [circuitBreakerTrips] is never touched. *)
Theorem counters_follow_every_check
  (f : FindmntWrapper) (ctx : Context) (mountPoint : string) (c : Counted W) :
  let res := CheckMountPoint f ctx mountPoint c in
  let r := fst (fst res) in
  let s := stats f in
  let s' := stats (snd (fst res)) in
  totalCalls s' = wrap64 (totalCalls s + 1)
  /\ successfulCalls s'
     = (if noError r then wrap64 (successfulCalls s + 1)
        else successfulCalls s)
  /\ failedCalls s'
     = (if noError r then failedCalls s else wrap64 (failedCalls s + 1))
  /\ circuitBreakerTrips s' = circuitBreakerTrips s
  /\ (invocations c <= invocations (snd res))%nat
  /\ retryAttempts s'
     = Nat.iter (invocations (snd res) - invocations c)
         (fun z => wrap64 (z + 1)) (retryAttempts s).
Proof.
  cbv zeta.
  assert (Hcases : state (circuitBreaker f) = StateOpen
                   \/ state (circuitBreaker f) <> StateOpen)
    by (destruct (state (circuitBreaker f)); auto; right; discriminate).
  destruct Hcases as [Hs | Hs].
  - rewrite CheckMountPoint_open by assumption.
    cbn. rewrite Nat.sub_diag. cbn. repeat split; auto.
  - rewrite CheckMountPoint_run by assumption.
    pose proof (executeFindmnt_counts f ctx mountPoint c
                  (incr_totalCalls (stats f)) (fresh mountPoint)) as Hc.
    pose proof (executeFindmnt_frame f ctx mountPoint c
                  (incr_totalCalls (stats f))) as Hfr.
    cbv zeta in Hc, Hfr.
    destruct (executeFindmnt f ctx mountPoint _) as [[e |] [c1 fr1]];
      cbn [fst snd isNil stats] in *;
      destruct Hc as (C1 & C2 & C3 & C4 & C5 & C6).
    + unfold noError. cbn. rewrite C2, C3, C4, C5, C6. cbn.
      repeat split; auto.
    + destruct Hfr as (_ & He & _). unfold noError. rewrite He. cbn.
      rewrite C2, C3, C4, C5, C6. cbn. repeat split; auto.
Qed.

End WrapperCounters.

Lemma parseOutput_blank (out : string) (result : system.FindmntResult) :
  strings.TrimSpace out = "" ->
  system.parseOutput out result
  = (None, system.set_Status system.MountStatusNotMounted result).
Proof. intros Hb. unfold system.parseOutput. now rewrite Hb. Qed.


Section WrapperOutputs.
Context {W : Type} `{Clock W} `{Waiter W} `{Findmnt W} `{DurationFormat}.
Import reliability system.

(** X15.  A command that exits with status zero and prints nothing but
    white space: when the command is run (the breaker is not open, an
    attempt is allowed), [CheckMountPoint] returns the status not-mounted
    without error after that single run, and the breaker has recorded a
    success. *)
Theorem blank_output_is_not_mounted
  (f : FindmntWrapper) (ctx : Context) (mountPoint : string) (c : Counted W) :
  state (circuitBreaker f) <> StateOpen ->
  1 <= MaxAttempts (config (retry f)) ->
  let o := fst (runFindmnt ctx (timeout f) mountPoint (base c)) in
  cmdErr o = None ->
  strings.TrimSpace (output o) = "" ->
  let res := CheckMountPoint f ctx mountPoint c in
  Status (fst (fst res)) = MountStatusNotMounted
  /\ Error_ (fst (fst res)) = None
  /\ invocations (snd res) = S (invocations c)
  /\ waits (snd res) = waits c
  /\ state (circuitBreaker (snd (fst res))) = StateClosed
  /\ failures (circuitBreaker (snd (fst res))) = 0.
Proof.
  intros Hs Hmax o Herr Hblank res. subst res.
  erewrite CheckMountPoint_first_run; [| assumption | assumption |].
  2:{ rewrite findmntOnce_exit_zero by assumption.
      cbn [frResult]. fold o.
      rewrite parseOutput_blank by assumption. reflexivity. }
  cbn [fst snd circuitBreaker invocations waits].
  match goal with |- context [onSuccess ?cb ?w] =>
    destruct (onSuccess_not_open cb w Hs) as [S1 S2] end.
  rewrite S1, S2. cbn. repeat split; reflexivity.
Qed.


Lemma CheckEach_app (calls1 calls2 : list ((W -> W) * Context * string)) :
  forall (f : FindmntWrapper) (w : W),
    CheckEach (calls1 ++ calls2) f w =
    let '((rs1, f1), w1) := CheckEach calls1 f w in
    let '((rs2, f2), w2) := CheckEach calls2 f1 w1 in
    ((rs1 ++ rs2)%list, f2, w2).
Proof.
  induction calls1 as [| [[g ctx] mp] calls1 IH]; intros f w.
  - cbn. now destruct (CheckEach calls2 f w) as [[rs2 f2] w2].
  - cbn [app CheckEach].
    destruct (CheckMountPoint f ctx mp (g w)) as [[r f1] w1].
    rewrite IH.
    destruct (CheckEach calls1 f1 w1) as [[rs1 f2] w2].
    now destruct (CheckEach calls2 f2 w2) as [[rs2 f3] w3].
Qed.

(** Checks that end in an error, below the threshold of a closed breaker:
    each counts one failure. *)
Lemma CheckEach_errors_below (calls : list ((W -> W) * Context * string)) :
  forall (f : FindmntWrapper) (w : W),
    state (circuitBreaker f) = StateClosed ->
    0 <= failures (circuitBreaker f) ->
    failures (circuitBreaker f) + Z.of_nat (List.length calls)
    < maxFailures (circuitBreaker f) ->
    maxFailures (circuitBreaker f) <= maxInt64 ->
    Forall (fun r => Error_ r <> None) (fst (fst (CheckEach calls f w))) ->
    let f' := snd (fst (CheckEach calls f w)) in
    state (circuitBreaker f') = StateClosed
    /\ failures (circuitBreaker f')
       = failures (circuitBreaker f) + Z.of_nat (List.length calls)
    /\ maxFailures (circuitBreaker f') = maxFailures (circuitBreaker f).
Proof.
  induction calls as [| [[g ctx] mp] calls IH]; intros f w Hs H0' Hlt Hmax Hall;
    cbv zeta.
  - cbn. repeat split; auto; lia.
  - cbn [CheckEach] in *.
    assert (Hno : state (circuitBreaker f) <> StateOpen) by congruence.
    destruct (CheckMountPoint_records f ctx mp (g w) Hno) as (R1 & _).
    destruct (CheckMountPoint f ctx mp (g w)) as [[r f1] w1].
    cbn [fst snd] in R1.
    specialize (IH f1 w1).
    destruct (CheckEach calls f1 w1) as [[rs f2] w2]. cbn [fst snd] in *.
    inversion Hall as [| ? ? Hr Hrs]; subst.
    assert (Hn : noError r = false)
      by (unfold noError; destruct (Error_ r); [reflexivity | congruence]).
    rewrite Hn in R1. cbn [recordResult] in R1.
    assert (Hlen : Z.of_nat (List.length ((g, ctx, mp) :: calls))
                   = 1 + Z.of_nat (List.length calls))
      by (cbn [List.length]; lia).
    rewrite Hlen in *.
    destruct (onFailure_below (circuitBreaker f) w1 Hs H0' ltac:(lia) Hmax)
      as (S1 & S2 & S3).
    rewrite <- R1 in S1, S2, S3.
    destruct IH as (I1 & I2 & I3); try assumption; try lia.
    repeat split; try assumption; lia.
Qed.

(** X17.  Checks that fail in a row open the breaker of the wrapper.  From
    a closed breaker that counts no failure, a series of [CheckMountPoint]
    calls that all end in an error, whatever the mount points and the time
    between them, leaves the breaker closed while the series is shorter
    than [maxFailures], and open when it has that length: each check
    counts once, however many runs of the command its retry made. *)
Theorem failed_checks_in_a_row_open_the_breaker
  (calls : list ((W -> W) * Context * string)) (f : FindmntWrapper) (w : W) :
  state (circuitBreaker f) = StateClosed ->
  failures (circuitBreaker f) = 0 ->
  maxFailures (circuitBreaker f) <= maxInt64 ->
  Forall (fun r => Error_ r <> None) (fst (fst (CheckEach calls f w))) ->
  let f' := snd (fst (CheckEach calls f w)) in
  (Z.of_nat (List.length calls) < maxFailures (circuitBreaker f) ->
   state (circuitBreaker f') = StateClosed
   /\ failures (circuitBreaker f') = Z.of_nat (List.length calls))
  /\ (Z.of_nat (List.length calls) = maxFailures (circuitBreaker f) ->
      (1 <= List.length calls)%nat ->
      state (circuitBreaker f') = StateOpen
      /\ failures (circuitBreaker f') = Z.of_nat (List.length calls)).
Proof.
  intros Hs Hf Hmax Hall. cbv zeta. split.
  - intros Hlt.
    destruct (CheckEach_errors_below calls f w) as (S1 & S2 & _);
      try assumption; try lia.
    split; [assumption | lia].
  - intros Hlen Hpos.
    destruct calls as [| [[g ctx] mp] pre] using rev_ind;
      [cbn in Hpos; lia |].
    clear IHpre. rewrite CheckEach_app in *. rewrite length_app in *.
    cbn [List.length] in *.
    pose proof (CheckEach_errors_below pre f w) as Hpre.
    destruct (CheckEach pre f w) as [[rs1 f1] w1]. cbn [fst snd] in Hpre.
    cbn [CheckEach] in *.
    assert (Hrec : state (circuitBreaker f1) <> StateOpen ->
                   circuitBreaker (snd (fst (CheckMountPoint f1 ctx mp (g w1))))
                   = recordResult (circuitBreaker f1)
                       (noError (fst (fst (CheckMountPoint f1 ctx mp (g w1)))))
                       (snd (CheckMountPoint f1 ctx mp (g w1))))
      by (intros Hno;
          now destruct (CheckMountPoint_records f1 ctx mp (g w1) Hno)).
    destruct (CheckMountPoint f1 ctx mp (g w1)) as [[r f2] w2].
    cbn [fst snd ret] in *.
    apply Forall_app in Hall. destruct Hall as [Hall1 Hall2].
    inversion Hall2 as [| ? ? Hr _]; subst.
    destruct Hpre as (P1 & P2 & P3); try assumption; try lia.
    rewrite Hrec by congruence.
    assert (Hn : noError r = false)
      by (unfold noError; destruct (Error_ r); [reflexivity | congruence]).
    rewrite Hn. cbn [recordResult].
    destruct (onFailure_threshold (circuitBreaker f1) w2)
      as (T1 & T2 & _); try assumption; try lia.
    split; [assumption | lia].
Qed.

End WrapperOutputs.

Lemma blank_output_is_not_mounted_witness :
  let res := system.CheckMountPoint testWrapper Background "/data"
               (counted (worldWith (mounted "  "))) in
  system.Status (fst (fst res)) = system.MountStatusNotMounted
  /\ system.Error_ (fst (fst res)) = None
  /\ invocations (snd res) = 1%nat.
Proof.
  intros res.
  destruct (blank_output_is_not_mounted testWrapper Background "/data"
              (counted (worldWith (mounted "  "))))
    as (A & B & C & _).
  - vm_compute. discriminate.
  - vm_compute. discriminate.
  - reflexivity.
  - reflexivity.
  - repeat split; assumption.
Defined.


(** Five checks in a world where the command exits with the code 2. *)
Lemma failed_checks_in_a_row_open_the_breaker_witness :
  let calls := [(fun w : Sim => w, Background, "/data");
                (sleep Second, Background, "/home");
                (sleep Second, Background, "/data");
                (sleep Second, Background, "/home");
                (sleep Second, Background, "/data")] in
  let f' := snd (fst (CheckEach calls testWrapper
                        (worldWith (exited 2 false)))) in
  reliability.state (system.circuitBreaker f') = reliability.StateOpen
  /\ reliability.failures (system.circuitBreaker f') = 5.
Proof.
  intros calls f'.
  destruct (failed_checks_in_a_row_open_the_breaker calls testWrapper
              (worldWith (exited 2 false)))
    as (_ & B).
  - reflexivity.
  - reflexivity.
  - vm_compute. discriminate.
  - vm_compute. repeat constructor; discriminate.
  - apply B; [reflexivity | cbn; lia].
Defined.

(** ** The collector *)

Section CollectorMore.
Context {W : Type} `{Clock W} `{Waiter W} `{Findmnt W} `{DurationFormat}.
Import reliability system metrics.

(** The status sample one iteration adds is the sample of its result. *)
Lemma collectOne_status (mountPoint : string) (f : FindmntWrapper)
  (healthy : Z) (ch : list Metric) (w : W) :
  let check := CheckMountPoint f Background mountPoint w in
  let st := collectOne mountPoint (f, healthy, ch) w in
  fst (fst (fst st)) = snd (fst check)
  /\ snd st = snd check
  /\ statusSamples (snd (fst st))
     = (statusSamples ch ++ [statusSample (fst (fst check))])%list.
Proof.
  cbv zeta.
  pose proof (CheckMountPoint_shape f Background mountPoint w) as Hr.
  unfold collectOne.
  destruct (CheckMountPoint f Background mountPoint w) as [[r f1] w1].
  cbn [fst snd] in *. destruct Hr as (Hm & He & Hs).
  unfold statusSample. rewrite Hm.
  destruct (Error_ r) as [e |] eqn:Herr.
  - rewrite He by discriminate. cbn [isNil fst snd].
    destruct Hs as (-> & -> & _ & ->); [rewrite He; discriminate |].
    unfold statusSamples. rewrite !filter_app. cbn. now rewrite app_nil_r.
  - cbn [isNil fst snd].
    destruct (Status r); cbn [fst snd];
      unfold statusSamples; rewrite !filter_app; cbn;
      now rewrite !app_nil_r.
Qed.

End CollectorMore.

Section CollectorExtras.
Context {W : Type} `{Clock W} `{Waiter W} `{Findmnt W} `{DurationFormat}.
Import reliability system metrics.

Lemma collectLoop_status (mountPoints : list string) :
  forall (f : FindmntWrapper) (healthy : Z) (ch : list Metric) (w : W),
    let st := collectLoop mountPoints (f, healthy, ch) w in
    let results := fst (fst (CheckEach (cycle mountPoints) f w)) in
    statusSamples (snd (fst st))
    = (statusSamples ch ++ map statusSample results)%list
    /\ map MountPoint results = mountPoints.
Proof.
  induction mountPoints as [| mp rest IH]; intros f healthy ch w; cbv zeta.
  - cbn. now rewrite app_nil_r.
  - cbn [cycle map CheckEach collectLoop]. unfold bind at 1.
    destruct (collectOne_status mp f healthy ch w) as (E1 & E2 & E3).
    pose proof (CheckMountPoint_shape f Background mp w) as (Hm & _).
    destruct (collectOne mp (f, healthy, ch) w) as [[[f1 h1] ch1] w1].
    destruct (CheckMountPoint f Background mp w) as [[r f1'] w1'].
    cbn [fst snd] in *. subst f1' w1'.
    specialize (IH f1 h1 ch1 w1). cbv zeta in IH. fold (@cycle W rest).
    destruct IH as [I1 I2]. rewrite I1, E3.
    destruct (CheckEach (cycle rest) f1 w1) as [[rs f2] w2].
    cbn [fst snd map] in *. rewrite <- app_assoc, Hm, I2. split; reflexivity.
Qed.

(** X18.  The status samples of a cycle are functions of the results of
    its checks, one per mount point and in order: the gauge is 1 exactly
    when the status of the result is mounted, the labels are the mount
    point, target, type and source of the result, and the error label is
    the text of its error, "unknown status" for a status unknown without
    error, and empty otherwise.  An error therefore always comes with the
    gauge at 0 and with empty target, type and source. *)
Theorem status_samples_follow_the_results (c : Collector) (w : W) :
  let ch := fst (fst (Collect c w)) in
  let mountPoints := MountPoints (metrics.config c) in
  let results := fst (fst (CheckEach (cycle mountPoints) (findmnt c) w)) in
  statusSamples ch = map statusSample results
  /\ map MountPoint results = mountPoints
  /\ Forall (fun r => Error_ r <> None ->
                      Status r = MountStatusUnknown /\ Target r = ""
                      /\ FSType r = "" /\ Source r = "") results.
Proof.
  cbv zeta. unfold Collect.
  destruct (collectLoop_status (MountPoints (metrics.config c)) (findmnt c)
              1 [] w) as [S1 S2].
  destruct (collectLoop _ _ w) as [[[f1 h1] ch1] w1]. cbn [fst snd] in *.
  split; [| split; [exact S2 |]].
  - unfold statusSamples in *. rewrite !filter_app. cbn [filter].
    rewrite !app_nil_r. exact S1.
  - clear S1 S2.
    generalize (findmnt c) w.
    induction (MountPoints (metrics.config c)) as [| mp rest IH];
      intros f0 w0; [constructor |].
    cbn [cycle map CheckEach].
    pose proof (CheckMountPoint_shape f0 Background mp w0) as (_ & He & Hs).
    destruct (CheckMountPoint f0 Background mp w0) as [[r f2] w2].
    specialize (IH f2 w2). fold (@cycle W rest).
    destruct (CheckEach (cycle rest) f2 w2) as [[rs f3] w3].
    cbn [fst snd] in *. constructor; [| exact IH].
    intros Herr. specialize (He Herr).
    destruct Hs as (T1 & T2 & _ & T4); [congruence |]. auto.
Qed.


End CollectorExtras.

Section CollectorOpen.
Context {W : Type} `{Clock W} `{Waiter W} `{Findmnt W} `{DurationFormat}.
Import reliability system metrics.


End CollectorOpen.


(** ** The configuration *)

Section ConfigFacts.
Import config.

Lemma absolute_path (s : string) :
  String.eqb s "" = false /\ firstIsNotSlash s = false
  <-> exists rest, s = String "/"%char rest.
Proof.
  destruct s as [| c t]; cbn.
  - split; [intros [? _]; discriminate | intros [rest ?]; discriminate].
  - destruct (Ascii.eqb_spec c "/"%char) as [-> | Hne]; cbn.
    + split; [intros _; now exists t | auto].
    + split; [intros [_ ?]; discriminate | intros [rest [= ? _]]; congruence].
Qed.

Lemma validateMountPoints_None (mountPoints : list string) :
  validateMountPoints mountPoints = None
  <-> Forall (fun mp => exists rest, mp = String "/"%char rest) mountPoints.
Proof.
  induction mountPoints as [| mp rest IH]; cbn [validateMountPoints].
  - split; [constructor | reflexivity].
  - pose proof (absolute_path mp) as Ha.
    destruct (String.eqb mp "") eqn:E1.
    + split; [discriminate |]. intros Hall. inversion Hall; subst.
      apply Ha in H1. destruct H1; discriminate.
    + destruct (firstIsNotSlash mp) eqn:E2.
      * split; [discriminate |]. intros Hall. inversion Hall; subst.
        apply Ha in H1. destruct H1; discriminate.
      * rewrite IH. split.
        -- intros Hall. constructor; [now apply Ha | assumption].
        -- intros Hall. now inversion Hall.
Qed.

Lemma existsb_eqb (s : string) (l : list string) :
  existsb (String.eqb s) l = true <-> In s l.
Proof.
  rewrite existsb_exists. split.
  - intros (x & Hin & Heq). apply String.eqb_eq in Heq. now subst.
  - intros Hin. exists s. split; [assumption | apply String.eqb_refl].
Qed.

(** X20.  [Validate] accepts exactly the configurations that meet all of
    its conditions: a port from 1 to 65535, a server path that starts with
    a slash, a positive interval, at least one mount point, every mount
    point starting with a slash, a log level among debug, info, warn, error
    and fatal, and a log format json or text. *)
Theorem Validate_accepts_exactly (c : Config) :
  Validate c = None
  <-> 1 <= Port (Server c) <= 65535
      /\ (exists rest, Path (Server c) = String "/"%char rest)
      /\ 0 < Interval c
      /\ MountPoints c <> []
      /\ Forall (fun mp => exists rest, mp = String "/"%char rest)
           (MountPoints c)
      /\ In (Level (Logging c)) ["debug"; "info"; "warn"; "error"; "fatal"]
      /\ In (Format (Logging c)) ["json"; "text"].
Proof.
  unfold Validate.
  pose proof (absolute_path (Path (Server c))) as Hpath.
  pose proof (validateMountPoints_None (MountPoints c)) as Hmps.
  pose proof (existsb_eqb (Level (Logging c))
                ["debug"; "info"; "warn"; "error"; "fatal"]) as Hlevel.
  pose proof (existsb_eqb (Format (Logging c)) ["json"; "text"]) as Hformat.
  fold (validLogLevels (Level (Logging c))) in Hlevel.
  fold (validFormats (Format (Logging c))) in Hformat.
  destruct (Z.ltb_spec (Port (Server c)) 1); cbn [orb].
  { split; [discriminate | intros (? & _); lia]. }
  destruct (Z.ltb_spec 65535 (Port (Server c))).
  { split; [discriminate | intros (? & _); lia]. }
  destruct (String.eqb (Path (Server c)) "") eqn:E1.
  { split; [discriminate |]. intros (_ & Hp & _). apply Hpath in Hp.
    destruct Hp; discriminate. }
  destruct (firstIsNotSlash (Path (Server c))) eqn:E2.
  { split; [discriminate |]. intros (_ & Hp & _). apply Hpath in Hp.
    destruct Hp; discriminate. }
  destruct (Z.leb_spec (Interval c) 0).
  { split; [discriminate | intros (_ & _ & ? & _); lia]. }
  destruct (MountPoints c) as [| mp rest] eqn:E3; cbn [List.length Nat.eqb].
  { split; [discriminate | intros (_ & _ & _ & ? & _); congruence]. }
  destruct (validateMountPoints (mp :: rest)) as [err |] eqn:E4.
  { split; [discriminate |]. intros (_ & _ & _ & _ & Hall & _).
    apply Hmps in Hall. discriminate. }
  destruct (validLogLevels (Level (Logging c))) eqn:E5; cbn [negb].
  2:{ split; [discriminate |]. intros (_ & _ & _ & _ & _ & Hl & _).
      apply Hlevel in Hl. discriminate. }
  destruct (validFormats (Format (Logging c))) eqn:E6; cbn [negb].
  2:{ split; [discriminate |]. intros (_ & _ & _ & _ & _ & _ & Hf).
      apply Hformat in Hf. discriminate. }
  split; [intros _ | reflexivity].
  repeat split; try lia.
  - now apply Hpath.
  - discriminate.
  - now apply Hmps.
  - now apply Hlevel.
  - now apply Hformat.
Qed.

(** X21.  The default configuration lacks mount points and nothing else:
    as it is, [Validate] rejects it for that reason; with mount points
    put in, [Validate] accepts it exactly when there is at least one and
    all are absolute paths. *)
Theorem default_configuration_needs_mount_points (mountPoints : list string) :
  Validate DefaultConfig
  = Some (errorString "at least one mount point must be configured")
  /\ (Validate {| Server := Server DefaultConfig;
                  MountPoints := mountPoints;
                  Interval := Interval DefaultConfig;
                  Logging := Logging DefaultConfig |} = None
      <-> mountPoints <> []
          /\ Forall (fun mp => exists rest, mp = String "/"%char rest)
               mountPoints).
Proof.
  split; [reflexivity |].
  unfold Validate. cbn -[validateMountPoints].
  pose proof (validateMountPoints_None mountPoints) as Hmps.
  destruct mountPoints as [| mp rest]; cbn [List.length Nat.eqb].
  - split; [discriminate | intros [A _]; congruence].
  - destruct (validateMountPoints (mp :: rest)) as [err |].
    + split; [discriminate |]. intros [_ B]. apply Hmps in B. discriminate.
    + split; [| reflexivity]. intros _. split; [discriminate |].
      now apply Hmps.
Qed.

End ConfigFacts.

(** ** The test for transient errors *)

Section Lowering.
Import reliability.

Lemma str_length_app (a b : string) :
  String.length (a ++ b) = (String.length a + String.length b)%nat.
Proof. induction a as [| c a IH]; cbn; [reflexivity | now rewrite IH]. Qed.

Lemma substring_skip (pre s : string) (m : nat) :
  substring (String.length pre) m (pre ++ s) = substring 0 m s.
Proof. induction pre as [| c pre IH]; cbn; [reflexivity | exact IH]. Qed.

Lemma substring_prefix (p post : string) :
  substring 0 (String.length p) (p ++ post) = p.
Proof.
  induction p as [| c p IH]; cbn.
  - now destruct post.
  - now rewrite IH.
Qed.

Lemma lowerASCII_length (s : string) :
  String.length (lowerASCII s) = String.length s.
Proof. induction s as [| c s IH]; cbn; [reflexivity | now rewrite IH]. Qed.

Lemma lowerASCII_app (a b : string) :
  lowerASCII (a ++ b) = lowerASCII a ++ lowerASCII b.
Proof. induction a as [| c a IH]; cbn; [reflexivity | now rewrite IH]. Qed.

Lemma decode_ascii (l : list N) :
  forallb (fun b => (b <? 0x80)%N) l = true ->
  forall n, (List.length l <= n)%nat -> utf8.decode n l = l.
Proof.
  induction l as [| b l IH]; intros Hall n Hn.
  - now destruct n.
  - cbn [forallb] in Hall. apply andb_true_iff in Hall.
    destruct Hall as [Hb Hl].
    destruct n as [| n]; [cbn in Hn; lia |].
    cbn [utf8.decode utf8.DecodeRune]. rewrite Hb. cbn [skipn].
    rewrite IH; [reflexivity | assumption | cbn in Hn; lia].
Qed.

Lemma encode_lowered (l : list N) :
  forallb (fun b => (b <? 0x80)%N) l = true ->
  flat_map utf8.EncodeRune
    (map (fun r => if ((65 <=? r) && (r <=? 90))%N then (r + 32)%N else r) l)
  = map (fun r => if ((65 <=? r) && (r <=? 90))%N then (r + 32)%N else r) l.
Proof.
  induction l as [| b l IH]; intros Hall; [reflexivity |].
  cbn [forallb] in Hall. apply andb_true_iff in Hall. destruct Hall as [Hb Hl].
  cbn [map flat_map]. rewrite IH by assumption.
  apply N.ltb_lt in Hb.
  assert (Hlow : (((if (65 <=? b) && (b <=? 90) then b + 32 else b)
                   <? 0x80)%N) = true).
  { apply N.ltb_lt.
    destruct (N.leb_spec 65 b); destruct (N.leb_spec b 90); cbn; lia. }
  unfold utf8.EncodeRune at 1. rewrite Hlow. reflexivity.
Qed.

Lemma ofBytes_lowered (s : string) :
  utf8.ofBytes
    (map (fun r => if ((65 <=? r) && (r <=? 90))%N then (r + 32)%N else r)
       (utf8.bytes s))
  = lowerASCII s.
Proof.
  unfold utf8.ofBytes, utf8.bytes.
  induction s as [| c s IH]; [reflexivity |].
  cbn [list_ascii_of_string map string_of_list_ascii lowerASCII].
  rewrite IH. f_equal. unfold lowerByte.
  destruct ((65 <=? N_of_ascii c) && (N_of_ascii c <=? 90))%N;
    [reflexivity | apply ascii_N_embedding].
Qed.

(** On a string of bytes below 0x80, [toLower] lowers byte by byte. *)
Lemma toLower_ascii (s : string) :
  isASCII s = true -> toLower s = lowerASCII s.
Proof.
  intros Ha. unfold toLower, utf8.runes, utf8.ofRunes.
  rewrite decode_ascii by (assumption || reflexivity).
  rewrite encode_lowered by assumption.
  apply ofBytes_lowered.
Qed.

(** An occurrence of the substring in any case past the first byte, or in
    its own case at the first byte, is found. *)
Lemma contains_occurrence (s substr pre q post : string) :
  isASCII s = true ->
  isASCII substr = true ->
  s = pre ++ q ++ post ->
  lowerASCII q = lowerASCII substr ->
  (pre = "" -> q = substr) ->
  contains s substr = true.
Proof.
  intros Hs Hp -> Hq Hfirst.
  assert (Hlen : String.length q = String.length substr).
  { rewrite <- (lowerASCII_length q), Hq. apply lowerASCII_length. }
  unfold contains. rewrite !str_length_app, Hlen.
  apply andb_true_iff. split; [apply Nat.leb_le; lia |].
  destruct pre as [| c pre].
  - rewrite (Hfirst eq_refl) in *. cbn [append String.length Nat.add].
    destruct post as [| d post].
    + replace (substr ++ "") with substr
        by (clear; induction substr as [| c s IH]; cbn; congruence).
      now rewrite String.eqb_refl.
    + apply orb_true_iff. right.
      apply andb_true_iff. split; [apply Nat.ltb_lt; cbn; lia |].
      rewrite substring_prefix, String.eqb_refl. reflexivity.
  - destruct (String.length substr) as [| n] eqn:Hn.
    + apply orb_true_iff. left. apply orb_true_iff. now right.
    + apply orb_true_iff. right.
      apply andb_true_iff. split; [apply Nat.ltb_lt; cbn; lia |].
      apply orb_true_iff. right.
      cbv zeta. rewrite !toLower_ascii by assumption.
      apply existsb_exists. exists (String.length (String c pre)).
      split.
      * apply in_seq. rewrite !lowerASCII_length, !str_length_app, Hlen, Hn.
        cbn [String.length]. lia.
      * rewrite !lowerASCII_app, Hq.
        rewrite <- (lowerASCII_length (String c pre)).
        rewrite substring_skip, substring_prefix.
        apply String.eqb_refl.
Qed.

End Lowering.

Section Occurrences.
Import reliability.

Lemma substring_0_0 (s : string) : substring 0 0 s = "".
Proof. now destruct s. Qed.

Lemma substring_whole (s : string) : substring 0 (String.length s) s = s.
Proof. induction s as [| c s IH]; cbn; [reflexivity | now rewrite IH]. Qed.

Lemma substring_length (s : string) :
  forall i n : nat,
    (i + n <= String.length s)%nat -> String.length (substring i n s) = n.
Proof.
  induction s as [| c s IH]; intros i n Hle; cbn in Hle.
  - assert (i = 0%nat /\ n = 0%nat) as [-> ->] by lia. reflexivity.
  - destruct i as [| i]; cbn.
    + destruct n as [| n]; [reflexivity |]. cbn. rewrite (IH 0%nat n); lia.
    + apply IH. lia.
Qed.

(** A string cut around the bytes from [i] to [i + n]. *)
Lemma substring_split (s : string) :
  forall i n : nat,
    (i + n <= String.length s)%nat ->
    s = substring 0 i s ++ substring i n s
          ++ substring (i + n) (String.length s - (i + n)) s.
Proof.
  induction s as [| c s IH]; intros i n Hle; cbn in Hle.
  - assert (i = 0%nat /\ n = 0%nat) as [-> ->] by lia. reflexivity.
  - destruct i as [| i].
    + destruct n as [| n].
      * cbn. now rewrite substring_whole.
      * cbn [Nat.add substring append String.length Nat.sub].
        f_equal. specialize (IH 0%nat n ltac:(lia)).
        rewrite substring_0_0 in IH. cbn [Nat.add append] in IH.
        exact IH.
    + cbn [Nat.add substring append String.length Nat.sub]. f_equal.
      apply IH. lia.
Qed.

Lemma lowerASCII_substring (s : string) :
  forall i n : nat,
    lowerASCII (substring i n s) = substring i n (lowerASCII s).
Proof.
  induction s as [| c s IH]; intros i n; [now destruct i, n |].
  destruct i as [| i]; cbn.
  - destruct n as [| n]; [reflexivity |]. cbn. now rewrite IH.
  - apply IH.
Qed.

(** What [contains] finds is an occurrence, past the first byte in any
    case and at the first byte in the case of the substring. *)
Lemma contains_sound (s substr : string) :
  isASCII s = true ->
  isASCII substr = true ->
  contains s substr = true ->
  exists pre q post,
    s = pre ++ q ++ post
    /\ lowerASCII q = lowerASCII substr
    /\ (pre = "" -> q = substr).
Proof.
  intros Hs Hp Hc. unfold contains in Hc.
  apply andb_true_iff in Hc. destruct Hc as [Hle Hc].
  apply Nat.leb_le in Hle.
  assert (Hat : forall i,
             (1 <= i)%nat ->
             (i + String.length substr <= String.length s)%nat ->
             lowerASCII (substring i (String.length substr) s)
             = lowerASCII substr ->
             exists pre q post,
               s = pre ++ q ++ post
               /\ lowerASCII q = lowerASCII substr
               /\ (pre = "" -> q = substr)).
  { intros i Hi Hroom Hlow.
    exists (substring 0 i s), (substring i (String.length substr) s),
      (substring (i + String.length substr)
         (String.length s - (i + String.length substr)) s).
    split; [now apply substring_split |]. split; [assumption |].
    intros Hpre.
    assert (Hl : String.length (substring 0 i s) = i)
      by (apply substring_length; lia).
    rewrite Hpre in Hl. cbn in Hl. lia. }
  apply orb_true_iff in Hc. destruct Hc as [Hc | Hc].
  - apply orb_true_iff in Hc. destruct Hc as [Heq | Hempty].
    + apply String.eqb_eq in Heq. subst substr.
      exists "", s, "". split; [| now split].
      cbn. clear. induction s as [| c s IH]; cbn; congruence.
    + apply Nat.eqb_eq in Hempty. destruct substr; [| discriminate].
      exists "", "", s. now repeat split.
  - apply andb_true_iff in Hc. destruct Hc as [Hlt Hc].
    apply Nat.ltb_lt in Hlt.
    apply orb_true_iff in Hc. destruct Hc as [Hc | Hscan].
    + apply orb_true_iff in Hc. destruct Hc as [Hprefix | Hsuffix].
      * apply String.eqb_eq in Hprefix.
        exists "", substr,
          (substring (String.length substr)
             (String.length s - String.length substr) s).
        split; [| now split].
        pose proof (substring_split s 0 (String.length substr) ltac:(lia))
          as Hsplit.
        rewrite substring_0_0, Hprefix in Hsplit. exact Hsplit.
      * apply String.eqb_eq in Hsuffix.
        apply (Hat (String.length s - String.length substr)%nat);
          [lia | lia | now rewrite Hsuffix].
    + cbv zeta in Hscan. rewrite !toLower_ascii in Hscan by assumption.
      apply existsb_exists in Hscan. destruct Hscan as (i & Hin & Heq).
      apply in_seq in Hin. rewrite !lowerASCII_length in *.
      apply String.eqb_eq in Heq.
      apply (Hat i); [lia | lia |].
      now rewrite lowerASCII_substring.
Qed.

(** X22.  On strings of bytes below 0x80 [contains] is a case-insensitive
    substring test with one exception: a match at the very start of the
    string counts only if it is in the case of the substring.  It returns
    true exactly when the substring occurs in the string, compared without
    regard to the case of the letters A to Z, at some place that is past
    the first byte or where it occurs in its own case. *)
Theorem contains_ignores_case_except_at_the_start (s substr : string) :
  isASCII s = true ->
  isASCII substr = true ->
  contains s substr = true
  <-> exists pre q post,
        s = pre ++ q ++ post
        /\ lowerASCII q = lowerASCII substr
        /\ (pre = "" -> q = substr).
Proof.
  intros Hs Hp. split.
  - now apply contains_sound.
  - intros (pre & q & post & Heq & Hlow & Hfirst).
    now apply (contains_occurrence s substr pre q post).
Qed.

(** X23.  [IsTransientError] on nil is false.  On an error whose text
    holds only bytes below 0x80 it is true exactly when one of its eleven
    patterns occurs in the text, in any case past the first byte of the
    text, in lower case at its first byte. *)
Theorem IsTransientError_looks_for_its_patterns `{DurationFormat} (e : error) :
  isASCII (Error e) = true ->
  IsTransientError None = false
  /\ (IsTransientError (Some e) = true
      <-> exists pattern pre q post,
            In pattern transientPatterns
            /\ Error e = pre ++ q ++ post
            /\ lowerASCII q = pattern
            /\ (pre = "" -> q = pattern)).
Proof.
  intros He. split; [reflexivity |].
  assert (Hpat : forall p, In p transientPatterns ->
                   isASCII p = true /\ lowerASCII p = p).
  { intros p Hin. cbn in Hin.
    repeat (destruct Hin as [<- | Hin]; [split; reflexivity |]).
    destruct Hin. }
  unfold IsTransientError. rewrite existsb_exists. split.
  - intros (p & Hin & Hc). destruct (Hpat p Hin) as [Ha Hl].
    destruct (contains_sound (Error e) p He Ha Hc)
      as (pre & q & post & E1 & E2 & E3).
    exists p, pre, q, post. rewrite Hl in E2. auto.
  - intros (p & pre & q & post & Hin & E1 & E2 & E3).
    destruct (Hpat p Hin) as [Ha Hl].
    exists p. split; [assumption |].
    apply (contains_occurrence (Error e) p pre q post); try assumption.
    now rewrite Hl.
Qed.

End Occurrences.

Lemma contains_ignores_case_except_at_the_start_witness :
  reliability.contains "dial tcp: Connection Refused" "connection refused"
  = true
  <-> exists pre q post,
        "dial tcp: Connection Refused" = pre ++ q ++ post
        /\ lowerASCII q = lowerASCII "connection refused"
        /\ (pre = "" -> q = "connection refused").
Proof.
  apply (contains_ignores_case_except_at_the_start
           "dial tcp: Connection Refused" "connection refused");
    reflexivity.
Defined.

Lemma IsTransientError_looks_for_its_patterns_witness :
  reliability.IsTransientError None = false
  /\ (reliability.IsTransientError
        (Some (errorString "Timeout while reading")) = true
      <-> exists pattern pre q post,
            In pattern reliability.transientPatterns
            /\ Error (errorString "Timeout while reading") = pre ++ q ++ post
            /\ lowerASCII q = pattern
            /\ (pre = "" -> q = pattern)).
Proof.
  apply (IsTransientError_looks_for_its_patterns
           (errorString "Timeout while reading")).
  reflexivity.
Defined.

(** ** The failures of the command *)

Lemma Do_first_failure {W} `{Waiter W} (r : reliability.Retry) (ctx : Context)
  (fn : M W (option error)) (w : W) (e : error) :
  1 <= reliability.MaxAttempts (reliability.config r) ->
  fst (fn w) = Some e ->
  reliability.ShouldRetry (reliability.config r) e = false ->
  reliability.Do r ctx fn w
  = (Some (reliability.errMaxAttempts r (Some e)), snd (fn w)).
Proof.
  intros Hmax He Hno. unfold reliability.Do.
  destruct (Z.to_nat _) as [| n] eqn:Hn; [lia |].
  cbn [reliability.DoLoop]. change (0 <? 0) with false. cbv beta iota.
  unfold bind, ret. destruct (fn w) as [o w1]. cbn in *. subst o.
  now rewrite Hno.
Qed.

Section WrapperFailures.
Context {W : Type} `{Clock W} `{Waiter W} `{Findmnt W} `{DurationFormat}.
Import reliability system.

(** A single run of the command that ends in an error the predicate does
    not retry ends the check: the error is wrapped by the retry, the result
    is untouched and the breaker has recorded a failure. *)
Lemma CheckMountPoint_single_failure (f : FindmntWrapper) (ctx : Context)
  (mountPoint : string) (c : Counted W) (e : error) (c1 : Counted W)
  (st : Stats) :
  state (circuitBreaker f) <> StateOpen ->
  1 <= MaxAttempts (config (retry f)) ->
  ShouldRetry (config (retry f)) e = false ->
  findmntOnce f ctx mountPoint
    (c, {| frStats := incr_totalCalls (stats f);
           frResult := fresh mountPoint |})
  = (Some e, (c1, {| frStats := st; frResult := fresh mountPoint |})) ->
  CheckMountPoint f ctx mountPoint c
  = ((set_Error (Some (errMaxAttempts (retry f) (Some e))) (fresh mountPoint),
      {| timeout := timeout f;
         circuitBreaker := onFailure (circuitBreaker f) c1;
         retry := retry f;
         stats := incr_failedCalls st |}), c1).
Proof.
  intros Hs Hmax Hno Hrun.
  rewrite CheckMountPoint_run by assumption. unfold executeFindmnt.
  rewrite (Do_first_failure (retry f) ctx (findmntOnce f ctx mountPoint) _ e);
    [| assumption | now rewrite Hrun | assumption].
  rewrite Hrun. reflexivity.
Qed.

(** The two runs of the command that end in an error of the wrapper's
    own. *)
Lemma findmntOnce_error (f : FindmntWrapper) (ctx : Context)
  (mountPoint : string) (c : Counted W) (fr : Frame) (err : error) :
  let o := fst (runFindmnt ctx (timeout f) mountPoint (base c)) in
  cmdErr o = Some err ->
  findmntOnce f ctx mountPoint (c, fr)
  = (match ctxErr o, err with
     | Some DeadlineExceeded, _ =>
         Some (timedOutError "findmnt command timed out after " (timeout f))
     | _, ExitError 1 _ => None
     | _, _ => Some (wrapError "findmnt command failed: " (Some err))
     end,
     ({| base := snd (runFindmnt ctx (timeout f) mountPoint (base c));
         invocations := S (invocations c);
         waits := waits c |},
      {| frStats := incr_retryAttempts (frStats fr);
         frResult := match ctxErr o, err with
                     | Some DeadlineExceeded, _ => frResult fr
                     | _, ExitError 1 _ =>
                         set_Status MountStatusNotMounted (frResult fr)
                     | _, _ => frResult fr
                     end |})).
Proof.
  intros o Herr. subst o. unfold findmntOnce.
  unfold runFindmnt at 1, Findmnt_Counted.
  destruct (runFindmnt ctx (timeout f) mountPoint (base c)) as [o w1].
  cbn [fst snd] in *. rewrite Herr.
  destruct (ctxErr o) as [[] |];
    destruct err as [| | | [| [| |] |] | |]; reflexivity.
Qed.

(** X24.  A timeout is a failure.  When the command is run and returns an
    error while the deadline of its context has expired, whatever the error
    and the exit code, and the predicate does not retry the timeout error,
    [CheckMountPoint] returns status unknown with the max-attempts error
    that wraps "findmnt command timed out after" and the timeout of the
    wrapper; the command has run once, no backoff was waited for, and the
    breaker has recorded a failure. *)
Theorem timeout_is_reported_and_counted
  (f : FindmntWrapper) (ctx : Context) (mountPoint : string) (c : Counted W)
  (err : error) :
  state (circuitBreaker f) <> StateOpen ->
  1 <= MaxAttempts (config (retry f)) ->
  let o := fst (runFindmnt ctx (timeout f) mountPoint (base c)) in
  let timedOut := timedOutError "findmnt command timed out after "
                    (timeout f) in
  cmdErr o = Some err ->
  ctxErr o = Some DeadlineExceeded ->
  ShouldRetry (config (retry f)) timedOut = false ->
  let res := CheckMountPoint f ctx mountPoint c in
  fst (fst res)
  = set_Error (Some (errMaxAttempts (retry f) (Some timedOut)))
      (fresh mountPoint)
  /\ invocations (snd res) = S (invocations c)
  /\ waits (snd res) = waits c
  /\ circuitBreaker (snd (fst res))
     = onFailure (circuitBreaker f) (snd res).
Proof.
  intros Hs Hmax o timedOut Herr Hctx Hno res. subst res.
  rewrite (CheckMountPoint_single_failure f ctx mountPoint c timedOut
             {| base := snd (runFindmnt ctx (timeout f) mountPoint (base c));
                invocations := S (invocations c); waits := waits c |}
             (incr_retryAttempts (incr_totalCalls (stats f))));
    try assumption.
  - cbn. repeat split; reflexivity.
  - rewrite (findmntOnce_error f ctx mountPoint c _ err) by exact Herr.
    fold o. rewrite Hctx. reflexivity.
Qed.

(** X25.  The other failures of the command.  When the command is run and
    returns an error that is not an exit with the code 1, the deadline of
    its context not having expired, and the predicate does not retry the
    wrapped error, [CheckMountPoint] returns status unknown with the
    max-attempts error that wraps "findmnt command failed:" and the error of
    the command; the command has run once, no backoff was waited for, and
    the breaker has recorded a failure. *)
Theorem command_failure_is_reported_and_counted
  (f : FindmntWrapper) (ctx : Context) (mountPoint : string) (c : Counted W)
  (err : error) :
  state (circuitBreaker f) <> StateOpen ->
  1 <= MaxAttempts (config (retry f)) ->
  let o := fst (runFindmnt ctx (timeout f) mountPoint (base c)) in
  let failed := wrapError "findmnt command failed: " (Some err) in
  cmdErr o = Some err ->
  ctxErr o <> Some DeadlineExceeded ->
  (forall text, err <> ExitError 1 text) ->
  ShouldRetry (config (retry f)) failed = false ->
  let res := CheckMountPoint f ctx mountPoint c in
  fst (fst res)
  = set_Error (Some (errMaxAttempts (retry f) (Some failed)))
      (fresh mountPoint)
  /\ invocations (snd res) = S (invocations c)
  /\ waits (snd res) = waits c
  /\ circuitBreaker (snd (fst res))
     = onFailure (circuitBreaker f) (snd res).
Proof.
  intros Hs Hmax o failed Herr Hctx Hcode Hno res. subst res.
  rewrite (CheckMountPoint_single_failure f ctx mountPoint c failed
             {| base := snd (runFindmnt ctx (timeout f) mountPoint (base c));
                invocations := S (invocations c); waits := waits c |}
             (incr_retryAttempts (incr_totalCalls (stats f))));
    try assumption.
  - cbn. repeat split; reflexivity.
  - rewrite (findmntOnce_error f ctx mountPoint c _ err) by exact Herr.
    fold o.
    destruct (ctxErr o) as [[] |]; try congruence;
      destruct err as [| | | [| [| |] |] | |];
      try reflexivity; exfalso; exact (Hcode _ eq_refl).
Qed.

End WrapperFailures.

(** The wrapper as the code makes it, in a world where the command is
    killed at the deadline. *)
Lemma timeout_is_reported_and_counted_witness :
  let o := {| output := ""; cmdErr := Some (errorString "signal: killed");
              ctxErr := Some DeadlineExceeded |} in
  let res := system.CheckMountPoint (realWrapper (5 * Second)) Background
               "/data" (counted (worldWith o)) in
  system.Status (fst (fst res)) = system.MountStatusUnknown
  /\ invocations (snd res) = 1%nat
  /\ reliability.failures (system.circuitBreaker (snd (fst res))) = 1.
Proof.
  intros o res.
  destruct (timeout_is_reported_and_counted (realWrapper (5 * Second))
              Background "/data" (counted (worldWith o))
              (errorString "signal: killed"))
    as (A & B & _ & D).
  - vm_compute. discriminate.
  - vm_compute. discriminate.
  - reflexivity.
  - reflexivity.
  - vm_compute. reflexivity.
  - subst res. rewrite A, B, D. repeat split; reflexivity.
Defined.

(** The same wrapper in a world where the command exits with the code
    32. *)
Lemma command_failure_is_reported_and_counted_witness :
  let res := system.CheckMountPoint (realWrapper (5 * Second)) Background
               "/data" (counted (worldWith (exited 32 false))) in
  system.Status (fst (fst res)) = system.MountStatusUnknown
  /\ invocations (snd res) = 1%nat
  /\ reliability.failures (system.circuitBreaker (snd (fst res))) = 1.
Proof.
  intros res.
  destruct (command_failure_is_reported_and_counted (realWrapper (5 * Second))
              Background "/data" (counted (worldWith (exited 32 false)))
              (ExitError 32 "exit status 32"))
    as (A & B & _ & D).
  - vm_compute. discriminate.
  - vm_compute. discriminate.
  - reflexivity.
  - discriminate.
  - intros text. discriminate.
  - vm_compute. reflexivity.
  - subst res. rewrite A, B, D. repeat split; reflexivity.
Defined.
